(** * The Coinbase Advanced Trade client of [coinbase-auth-playground.ipynb]

    A shallow embedding of the notebook's three functions, [cb_connect],
    [cb_get_all_accounts] and [cb_get_all_orders], with the library calls
    they make (hmac, requests, json, the part of pandas they use), and the
    properties of the client that its specification states. *)

From Stdlib Require Import ZArith List String Ascii Bool Lia.
From Stdlib.Strings Require Import Byte.
From Stdlib Require Import DecimalString DecimalZ.
Import ListNotations.
Set Warnings "-register-all".
Local Open Scope string_scope.
Local Open Scope list_scope.
Local Open Scope Z_scope.

(** Python's [+] on [str]. *)
Infix "+++" := String.append (right associativity, at level 60).

(** ** Text and bytes

    A Python [str] is represented by its UTF-8 encoding, held in a Rocq
    [string]: concatenation, comparison with [''] and splitting at the ASCII
    character ['?'] act on the encoding exactly as they act on the text, and
    [s.encode('utf-8')] is the list of the string's bytes.  (A [str] with a
    lone surrogate, which has no encoding, is outside the model.) *)

Definition bytes := list byte.

Definition encode_utf8 (s : string) : bytes := list_byte_of_string s.

Definition byte_of_Z (z : Z) : byte :=
  byte_of_ascii (ascii_of_N (Z.to_N (z mod 256))).

Definition Z_of_byte (b : byte) : Z := Z.of_N (Byte.to_N b).

(** [str(n)] for a Python [int]: decimal digits, a leading [-] when negative. *)
Definition str_of_int (n : Z) : string := NilZero.string_of_int (Z.to_int n).

(** [bytes.hex()]: two lowercase hexadecimal digits per byte. *)
Definition hex_digit (n : Z) : ascii :=
  if n <? 10 then ascii_of_N (Z.to_N (48 + n)) else ascii_of_N (Z.to_N (87 + n)).

Fixpoint hex (bs : bytes) : string :=
  match bs with
  | [] => EmptyString
  | b :: bs' =>
      String (hex_digit (Z_of_byte b / 16))
        (String (hex_digit (Z_of_byte b mod 16)) (hex bs'))
  end.

(** [s.split(c)] for a one-character separator [c]: the pieces between the
    occurrences of [c], never an empty list. *)
Fixpoint split (sep : ascii) (s : string) : list string :=
  match s with
  | EmptyString => [EmptyString]
  | String c s' =>
      if Ascii.eqb c sep then EmptyString :: split sep s'
      else match split sep s' with
           | [] => [String c EmptyString]
           | p :: ps => String c p :: ps
           end
  end.

(** ** SHA-256 (FIPS 180-4) and HMAC (RFC 2104), as [hashlib] and [hmac]
    compute them.  Words are 32-bit, held in [Z] and reduced modulo 2^32. *)

Module SHA256.

Definition w32 (x : Z) : Z := x mod 2 ^ 32.

Definition rotr (n x : Z) : Z :=
  Z.lor (Z.shiftr x n) (w32 (Z.shiftl x (32 - n))).

Definition Ch (x y z : Z) : Z :=
  Z.lxor (Z.land x y) (Z.land (Z.lxor x 0xffffffff) z).

Definition Maj (x y z : Z) : Z :=
  Z.lxor (Z.lxor (Z.land x y) (Z.land x z)) (Z.land y z).

Definition Sigma0 (x : Z) : Z := Z.lxor (Z.lxor (rotr 2 x) (rotr 13 x)) (rotr 22 x).
Definition Sigma1 (x : Z) : Z := Z.lxor (Z.lxor (rotr 6 x) (rotr 11 x)) (rotr 25 x).
Definition sigma0 (x : Z) : Z := Z.lxor (Z.lxor (rotr 7 x) (rotr 18 x)) (Z.shiftr x 3).
Definition sigma1 (x : Z) : Z := Z.lxor (Z.lxor (rotr 17 x) (rotr 19 x)) (Z.shiftr x 10).

(** The first 64 primes. *)
Definition is_prime (p : Z) : bool :=
  forallb (fun d => negb (p mod d =? 0)) (map Z.of_nat (seq 2 (Z.to_nat p - 2))).

Definition primes : list Z := filter is_prime (map Z.of_nat (seq 2 310)).

(** The integer part of the cube root of [x], between [lo] and [hi]. *)
Fixpoint cube_root (n : nat) (lo hi x : Z) : Z :=
  match n with
  | O => lo
  | S n' =>
      let mid := (lo + hi) / 2 in
      if mid * mid * mid <=? x then cube_root n' mid hi x else cube_root n' lo mid x
  end.

(** The round constants: the first 32 bits of the fractional parts of the
    cube roots of the first 64 primes. *)
Definition K : list Z :=
  map (fun p => w32 (cube_root 40 0 (2 ^ 36) (p * 2 ^ 96))) primes.

(** The initial hash value: the first 32 bits of the fractional parts of
    the square roots of the first 8 primes. *)
Definition H0 : list Z :=
  map (fun p => w32 (Z.sqrt (p * 2 ^ 64))) (firstn 8 primes).

(** Big-endian bytes of a [n]-byte number, and back. *)
Fixpoint be_bytes (n : nat) (x : Z) : list Z :=
  match n with
  | O => []
  | S n' => (x / 256 ^ Z.of_nat n') mod 256 :: be_bytes n' x
  end.

Definition be_value (bs : list Z) : Z := fold_left (fun acc b => acc * 256 + b) bs 0.

(** The message followed by the bit 1, zeros up to 56 modulo 64 bytes, and
    the bit length on 8 bytes. *)
Definition pad (msg : list Z) : list Z :=
  let len := Z.of_nat (List.length msg) in
  let zeros := Z.to_nat ((55 - len) mod 64) in
  msg ++ [0x80] ++ repeat 0 zeros ++ be_bytes 8 (8 * len).

Fixpoint words (n : nat) (bs : list Z) : list Z :=
  match n with
  | O => []
  | S n' => be_value (firstn 4 bs) :: words n' (skipn 4 bs)
  end.

(** The message schedule beyond the first 16 words; [win] is the window of
    the 16 words before the one computed. *)
Fixpoint expand (n : nat) (win : list Z) : list Z :=
  match n with
  | O => []
  | S n' =>
      let wt := w32 (sigma1 (nth 14 win 0) + nth 9 win 0 + sigma0 (nth 1 win 0) + nth 0 win 0) in
      wt :: expand n' (tl win ++ [wt])
  end.

Definition round (st : list Z) (kw : Z * Z) : list Z :=
  match st with
  | [a; b; c; d; e; f; g; h] =>
      let t1 := h + Sigma1 e + Ch e f g + fst kw + snd kw in
      let t2 := Sigma0 a + Maj a b c in
      [w32 (t1 + t2); a; b; c; w32 (d + t1); e; f; g]
  | _ => st
  end.

Definition compress (hs : list Z) (block : list Z) : list Z :=
  let w16 := words 16 block in
  let w := w16 ++ expand 48 w16 in
  let st := fold_left round (combine K w) hs in
  map (fun p => w32 (fst p + snd p)) (combine hs st).

Fixpoint blocks (n : nat) (hs : list Z) (bs : list Z) : list Z :=
  match n with
  | O => hs
  | S n' => blocks n' (compress hs (firstn 64 bs)) (skipn 64 bs)
  end.

Definition digest (msg : bytes) : bytes :=
  let p := pad (map Z_of_byte msg) in
  let hs := blocks (List.length p / 64) H0 p in
  map byte_of_Z (flat_map (be_bytes 4) hs).

End SHA256.

Module HMAC.

Definition block_size : nat := 64.

Definition xor_with (c : Z) (bs : bytes) : bytes :=
  map (fun b => byte_of_Z (Z.lxor (Z_of_byte b) c)) bs.

(** [hmac.new(key, msg, digestmod=hashlib.sha256).digest()] *)
Definition digest (key msg : bytes) : bytes :=
  let k := if (block_size <? List.length key)%nat then SHA256.digest key else key in
  let k := k ++ repeat x00%byte (block_size - List.length k) in
  SHA256.digest (xor_with 0x5c k ++ SHA256.digest (xor_with 0x36 k ++ msg)).

End HMAC.

(** ** Python values

    What [json.loads] returns: [None], [bool], [int], [str], [list] and
    [dict] (floating-point numbers are left out).  A [dict] is the list of
    its items in insertion order, the first binding of a key being the one
    that counts. *)

Inductive json : Type :=
| JNull
| JBool (b : bool)
| JInt (n : Z)
| JStr (s : string)
| JArr (l : list json)
| JObj (d : list (string * json)).

Definition dict := list (string * json).

Fixpoint dict_get (k : string) (d : dict) : option json :=
  match d with
  | [] => None
  | (k', v) :: d' => if String.eqb k k' then Some v else dict_get k d'
  end.

(** [d.pop(k)] for its effect on [d]. *)
Fixpoint dict_pop (k : string) (d : dict) : dict :=
  match d with
  | [] => []
  | (k', v) :: d' => if String.eqb k k' then d' else (k', v) :: dict_pop k d'
  end.

(** [d[k] = v]: in place when [k] is a key already, at the end otherwise. *)
Fixpoint dict_set (k : string) (v : json) (d : dict) : dict :=
  match d with
  | [] => [(k, v)]
  | (k', v') :: d' =>
      if String.eqb k k' then (k', v) :: d' else (k', v') :: dict_set k v d'
  end.

(** [d.update(e)] *)
Definition dict_update (d e : dict) : dict :=
  fold_left (fun acc kv => dict_set (fst kv) (snd kv) acc) e d.

(** Truth value of an object, as [while has_next:] tests it. *)
Definition truthy (v : json) : bool :=
  match v with
  | JNull => false
  | JBool b => b
  | JInt n => negb (n =? 0)
  | JStr s => negb (String.eqb s "")
  | JArr l => match l with [] => false | _ => true end
  | JObj d => match d with [] => false | _ => true end
  end.

(** ** Exceptions

    The exception classes the program can meet, each with its base class,
    and an exception as its class and its [str()]. *)

Inductive exc_class : Type :=
| BaseException | KeyboardInterrupt | Exception
| AttributeError | TypeError | NameError | UnboundLocalError
| LookupError | KeyError | ValueError | JSONDecodeError
| OSError
| urllib_URLError | urllib_HTTPError
| requests_RequestException | requests_HTTPError
| requests_ConnectionError | requests_Timeout.

Definition base_class (c : exc_class) : option exc_class :=
  match c with
  | BaseException => None
  | KeyboardInterrupt => Some BaseException
  | Exception => Some BaseException
  | AttributeError | TypeError | NameError | LookupError | ValueError | OSError => Some Exception
  | UnboundLocalError => Some NameError
  | KeyError => Some LookupError
  | JSONDecodeError => Some ValueError
  | urllib_URLError => Some OSError
  | urllib_HTTPError => Some urllib_URLError
  | requests_RequestException => Some OSError
  | requests_HTTPError | requests_ConnectionError | requests_Timeout =>
      Some requests_RequestException
  end.

Definition exc_class_eqb (c d : exc_class) : bool :=
  match c, d with
  | BaseException, BaseException | KeyboardInterrupt, KeyboardInterrupt
  | Exception, Exception | AttributeError, AttributeError
  | TypeError, TypeError | NameError, NameError
  | UnboundLocalError, UnboundLocalError | LookupError, LookupError
  | KeyError, KeyError | ValueError, ValueError
  | JSONDecodeError, JSONDecodeError | OSError, OSError
  | urllib_URLError, urllib_URLError | urllib_HTTPError, urllib_HTTPError
  | requests_RequestException, requests_RequestException
  | requests_HTTPError, requests_HTTPError
  | requests_ConnectionError, requests_ConnectionError
  | requests_Timeout, requests_Timeout => true
  | _, _ => false
  end.

(** [issubclass(c, d)]; the class tree is at most five deep. *)
Fixpoint issubclass_upto (n : nat) (c d : exc_class) : bool :=
  exc_class_eqb c d ||
  match n with
  | O => false
  | S n' => match base_class c with
            | Some b => issubclass_upto n' b d
            | None => false
            end
  end.

Definition issubclass : exc_class -> exc_class -> bool := issubclass_upto 5.

Record exn : Type := mk_exn { exn_class : exc_class; exn_str : string }.

(** ** The world outside the program

    The clock that [time.time()] reads, the server behind [requests.get],
    the requests issued so far and the lines printed so far (both oldest
    first).  The server answers a request with a response or with an
    exception of [requests], and may take every earlier request into account:
    it is a function of the whole list of requests, the last being the one
    to answer. *)

(** A response body is represented by what [json.loads] makes of it. *)
Inductive body : Type :=
| NotJSON (msg : string)
| JSON (j : json).

Record Response : Type := mk_response {
  status_code : Z;
  reason : string;
  url : string;
  text : body
}.

(** The arguments of [requests.get(url, headers=headers)]; a header whose
    value is [None] is kept as such. *)
Record Request : Type := mk_request {
  req_url : string;
  req_headers : list (string * option string)
}.

Inductive NetOutcome : Type :=
| Responds (r : Response)
| Fails (e : exn).

Record World : Type := mk_world {
  clock : nat -> Z;
  ticks : nat;
  server : list Request -> NetOutcome;
  sent : list Request;
  stdout : list string
}.

(** ** Computations

    A call returns a value or raises.  [Unmodelled] marks a run that leaves
    the part of pandas modelled below. *)

Inductive Res (A : Type) : Type :=
| Return (a : A)
| Raise (e : exn)
| Unmodelled.
Arguments Return {A} a.
Arguments Raise {A} e.
Arguments Unmodelled {A}.

Definition throw {A} (c : exc_class) (msg : string) : Res A := Raise (mk_exn c msg).

Definition rbind {A B} (r : Res A) (k : A -> Res B) : Res B :=
  match r with
  | Return a => k a
  | Raise e => Raise e
  | Unmodelled => Unmodelled
  end.

(** A call that also reads the clock, talks to the server or prints. *)
Definition Py (A : Type) : Type := World -> Res A * World.

Definition ret {A} (a : A) : Py A := fun w => (Return a, w).

Definition lift {A} (r : Res A) : Py A := fun w => (r, w).

Definition bind {A B} (m : Py A) (k : A -> Py B) : Py B :=
  fun w =>
    match m w with
    | (Return a, w') => k a w'
    | (Raise e, w') => (Raise e, w')
    | (Unmodelled, w') => (Unmodelled, w')
    end.

Notation "x <~ r ;; k" := (rbind r (fun x => k))
  (at level 100, r at next level, right associativity).
Notation "x <- m ;; k" := (bind m (fun x => k))
  (at level 100, m at next level, right associativity).
Notation "m ;;; k" := (bind m (fun _ => k))
  (at level 100, right associativity).

(** [try: body  except C1 as e: h1  except C2 as e: h2]: the first handler
    whose class the exception is an instance of runs. *)
Definition try_except {A} (body : Py A)
    (handlers : list (exc_class * (exn -> Py A))) : Py A :=
  fun w =>
    match body w with
    | (Raise e, w') =>
        match find (fun h => issubclass (exn_class e) (fst h)) handlers with
        | Some h => snd h e w'
        | None => (Raise e, w')
        end
    | r => r
    end.

Definition tick (w : World) : World :=
  mk_world (clock w) (S (ticks w)) (server w) (sent w) (stdout w).

Definition send (rq : Request) (w : World) : World :=
  mk_world (clock w) (ticks w) (server w) (sent w ++ [rq]) (stdout w).

Definition say (line : string) (w : World) : World :=
  mk_world (clock w) (ticks w) (server w) (sent w) (stdout w ++ [line]).

(** [int(time.time())] *)
Definition time_time : Py Z := fun w => (Return (clock w (ticks w)), tick w).

Definition print (line : string) : Py unit := fun w => (Return tt, say line w).

(** [requests.get(url, headers=headers)] *)
Definition requests_get (url : string) (headers : list (string * option string))
  : Py Response :=
  fun w =>
    let rq := mk_request url headers in
    match server w (sent w ++ [rq]) with
    | Responds r => (Return r, send rq w)
    | Fails e => (Raise e, send rq w)
    end.

(** [response.raise_for_status()] of requests. *)
Definition raise_for_status (r : Response) : Res unit :=
  if (400 <=? status_code r) && (status_code r <? 500) then
    throw requests_HTTPError
      (str_of_int (status_code r) +++ " Client Error: " +++ reason r
         +++ " for url: " +++ url r)
  else if (500 <=? status_code r) && (status_code r <? 600) then
    throw requests_HTTPError
      (str_of_int (status_code r) +++ " Server Error: " +++ reason r
         +++ " for url: " +++ url r)
  else Return tt.

(** [s.encode('utf-8')] where [s] may be [None]. *)
Definition str_encode (s : option string) : Res bytes :=
  match s with
  | Some s => Return (encode_utf8 s)
  | None => throw AttributeError "'NoneType' object has no attribute 'encode'"
  end.

(** [s + v] for a [str] [s] and an object [v]. *)
Definition str_add (s : string) (v : json) : Res string :=
  match v with
  | JStr t => Return (s +++ t)
  | _ => throw TypeError "can only concatenate str to str"
  end.

(** [v != ''] *)
Definition ne_empty (v : json) : bool :=
  match v with
  | JStr s => negb (String.eqb s "")
  | _ => true
  end.

(** ** [cb_connect] *)

(** The two globals read from the environment; [None] when unset. *)
Record Env : Type := mk_env {
  CB_API_KEY : option string;
  CB_SECRET_KEY : option string
}.

Definition url_prefix : string := "https://coinbase.com".

(** The message that is signed, the signature and the headers (lines 131
    to 135). *)
Definition cb_message (timestamp url_path : string) : string :=
  let method := "GET" in
  let body := "" in
  timestamp +++ method +++ nth 0 (split "?" url_path) "" +++ body.

Definition cb_signature (secret_key message : bytes) : string :=
  hex (HMAC.digest secret_key message).

Definition cb_headers (signature : string) (api_key : option string)
    (timestamp : string) : list (string * option string) :=
  [ ("accept", Some "application/json");
    ("CB-ACCESS-SIGN", Some signature);
    ("CB-ACCESS-KEY", api_key);
    ("CB-ACCESS-TIMESTAMP", Some timestamp) ].

Definition cb_connect (env : Env) (url_path : string) (limit : Z) (cursor : json)
  : Py (option Response) :=
  let url := url_prefix +++ url_path in
  let secret_key := CB_SECRET_KEY env in
  let api_key := CB_API_KEY env in
  now <- time_time ;;
  let timestamp := str_of_int now in
  let message := cb_message timestamp url_path in
  key <- lift (str_encode secret_key) ;;
  let signature := cb_signature key (encode_utf8 message) in
  let headers := cb_headers signature api_key timestamp in
  let url := url +++ "?limit=" +++ str_of_int limit in
  url <- lift (if ne_empty cursor then str_add (url +++ "&cursor=") cursor
               else Return url) ;;
  try_except
    (response <- requests_get url headers ;;
     lift (raise_for_status response) ;;;
     print ("HTTP connection " +++ url +++ " successful!") ;;;
     ret (Some response))
    [ (urllib_HTTPError,
       fun http_err => print ("HTTP error occurred: " +++ exn_str http_err) ;;; ret None);
      (Exception,
       fun err => print ("Other error occurred: " +++ exn_str err) ;;; ret None) ].

(** ** The part of json and pandas the program uses *)

(** [response.text], where [response] may be [None]. *)
Definition response_text (response : option Response) : Res body :=
  match response with
  | Some r => Return (text r)
  | None => throw AttributeError "'NoneType' object has no attribute 'text'"
  end.

Definition json_loads (b : body) : Res json :=
  match b with
  | JSON j => Return j
  | NotJSON msg => throw JSONDecodeError msg
  end.

(** [v[k]] for a string [k]. *)
Definition getitem (v : json) (k : string) : Res json :=
  match v with
  | JObj d => match dict_get k d with
              | Some x => Return x
              | None => throw KeyError ("'" +++ k +++ "'")
              end
  | JArr _ => throw TypeError "list indices must be integers or slices, not str"
  | JStr _ => throw TypeError "string indices must be integers"
  | _ => throw TypeError "object is not subscriptable"
  end.

(** A cell of a table stands for the Python object pandas holds there and
    is identified by where it comes from: the JSON value of a record at the
    column's key, or nothing ([None]: pandas fills in NaN or None). *)
Definition cell : Type := option json.

(** A [DataFrame]: its column labels and its rows ([df.values.tolist()]). *)
Record Frame : Type := mk_frame {
  columns : list string;
  values : list (list cell)
}.

Definition is_dict (v : json) : bool :=
  match v with JObj _ => true | _ => false end.

Definition dot_free (k : string) : bool :=
  match split "." k with [_] => true | _ => false end.

Fixpoint distinct (l : list string) : bool :=
  match l with
  | [] => true
  | k :: l' => negb (existsb (String.eqb k) l') && distinct l'
  end.

(** The records covered: dicts whose keys, at every depth of nested dicts,
    are distinct and hold no ['.'], so that no two flattened keys meet. *)
Fixpoint plain (v : json) : bool :=
  match v with
  | JObj d =>
      distinct (map fst d) &&
      (fix all (l : dict) : bool :=
         match l with
         | [] => true
         | (k, v') :: l' => dot_free k && plain v' && all l'
         end) d
  | _ => true
  end.

(** The items a value contributes under the key [newkey]: itself, or when
    it is a dict its items under [newkey.k], flattened in turn. *)
Fixpoint flat_value (newkey : string) (v : json) : dict :=
  match v with
  | JObj d =>
      (fix items (l : dict) : dict :=
         match l with
         | [] => []
         | (k, v') :: l' => flat_value (newkey +++ "." +++ k) v' ++ items l'
         end) d
  | _ => [(newkey, v)]
  end.

(** pandas' [nested_to_record(d)] with the separator ['.']: values that are
    no dict stay where they are, each dict is taken out and its flattened
    items are added at the end. *)
Definition nested_to_record (d : dict) : dict :=
  filter (fun kv => negb (is_dict (snd kv))) d
  ++ flat_map (fun kv => if is_dict (snd kv) then flat_value (fst kv) (snd kv) else []) d.

(** [DataFrame(records)] for a list of flat dicts: the columns are the keys
    in the order they first appear, a record without a key has no value
    there. *)
Definition add_keys (cols : list string) (d : dict) : list string :=
  fold_left (fun cols kv =>
               if existsb (String.eqb (fst kv)) cols then cols else cols ++ [fst kv])
            d cols.

Definition DataFrame_records (records : list dict) : Frame :=
  let cols := fold_left add_keys records [] in
  mk_frame cols (map (fun d => map (fun c => dict_get c d) cols) records).

(** pandas' [_pull_records(js, field)]: the list under [field]; [None]
    there counts as the empty list. *)
Definition pull_records (js : dict) (field : string) : Res (list json) :=
  match dict_get field js with
  | None => throw KeyError ("Key '" +++ field +++ "' not found")
  | Some (JArr l) => Return l
  | Some JNull => Return []
  | Some _ => throw TypeError "non list value for path. Must be list or null."
  end.

Definition as_dict (v : json) : dict :=
  match v with JObj d => d | _ => [] end.

(** [pd.json_normalize(data, record_path=[field])] *)
Definition json_normalize (data : json) (field : string) : Res Frame :=
  match data with
  | JObj js =>
      recs <~ pull_records js field ;;
      if forallb (fun r => is_dict r && plain r) recs
      then Return (DataFrame_records (map (fun r => nested_to_record (as_dict r)) recs))
      else Unmodelled
  | _ => Unmodelled
  end.

(** [pd.DataFrame(lst)] for a list of rows: as wide as the longest row, the
    shorter rows filled up with [None]. *)
Definition width (lst : list (list cell)) : nat :=
  fold_right (fun row w => Nat.max (List.length row) w) O lst.

Definition DataFrame_rows (lst : list (list cell)) : list (list cell) :=
  map (fun row => row ++ repeat None (width lst - List.length row)) lst.

(** [df.columns = cols] for a table [df] of [n_columns] columns. *)
Definition set_columns (rows : list (list cell)) (n_columns : nat) (cols : list string)
  : Res Frame :=
  if Nat.eqb (List.length cols) n_columns then Return (mk_frame cols rows)
  else throw ValueError
         ("Length mismatch: Expected axis has " +++ str_of_int (Z.of_nat n_columns)
            +++ " elements, new values have " +++ str_of_int (Z.of_nat (List.length cols))
            +++ " elements").

(** ** [cb_get_all_accounts] and [cb_get_all_orders]

    The two functions differ in the path, the limit and the name of the
    record array only. *)

(** What a turn of the loop reads from a response (lines 157 to 160 and
    177 to 180). *)
Record Page : Type := mk_page {
  page_has_next : json;
  page_cursor : json;
  page_df : Frame
}.

Definition read_page (field : string) (response : option Response) : Res Page :=
  body <~ response_text response ;;
  json_page <~ json_loads body ;;
  has_next <~ getitem json_page "has_next" ;;
  cursor <~ getitem json_page "cursor" ;;
  tmp_df <~ json_normalize json_page field ;;
  Return (mk_page has_next cursor tmp_df).

(** The local variables of the loop; [tmp_df] is unbound before the first
    turn. *)
Record Locals : Type := mk_locals {
  has_next : json;
  cursor : json;
  lst : list (list cell);
  tmp_df : option Frame
}.

Definition start : Locals := mk_locals (JBool true) (JStr "") [] None.

Definition extend (l : Locals) (p : Page) : Locals :=
  let tmp_lst := values (page_df p) in
  mk_locals (page_has_next p) (page_cursor p) (lst l ++ tmp_lst) (Some (page_df p)).

Definition loop_body (env : Env) (url_path : string) (limit : Z) (field : string)
    (l : Locals) : Py Locals :=
  response <- cb_connect env url_path limit (cursor l) ;;
  page <- lift (read_page field response) ;;
  ret (extend l page).

(** [while has_next: ...]; [None] when [fuel] turns do not end the loop. *)
Fixpoint while_has_next (fuel : nat) (env : Env) (url_path : string) (limit : Z)
    (field : string) (l : Locals) (w : World) : option (Res Locals * World) :=
  if truthy (has_next l) then
    match fuel with
    | O => None
    | S fuel' =>
        match loop_body env url_path limit field l w with
        | (Return l', w') => while_has_next fuel' env url_path limit field l' w'
        | (Raise e, w') => Some (Raise e, w')
        | (Unmodelled, w') => Some (Unmodelled, w')
        end
    end
  else Some (Return l, w).

(** The lines after the loop: the table of all rows, named by the columns
    of the last page. *)
Definition build_frame (l : Locals) : Res Frame :=
  let df := DataFrame_rows (lst l) in
  match tmp_df l with
  | Some tmp => set_columns df (width (lst l)) (columns tmp)
  | None => throw UnboundLocalError "local variable referenced before assignment"
  end.

Definition cb_get_all (fuel : nat) (env : Env) (url_path : string) (limit : Z)
    (field : string) (w : World) : option (Res Frame * World) :=
  match while_has_next fuel env url_path limit field start w with
  | None => None
  | Some (Return l, w') => Some (build_frame l, w')
  | Some (Raise e, w') => Some (Raise e, w')
  | Some (Unmodelled, w') => Some (Unmodelled, w')
  end.

Definition cb_get_all_accounts (fuel : nat) (env : Env) (w : World)
  : option (Res Frame * World) :=
  cb_get_all fuel env "/api/v3/brokerage/accounts" 50 "accounts" w.

Definition cb_get_all_orders (fuel : nat) (env : Env) (w : World)
  : option (Res Frame * World) :=
  cb_get_all fuel env "/api/v3/brokerage/orders/historical/batch" 100 "orders" w.

(** ** The signer of the specification

    Section 4.1 of the specification in its own words: the canonical
    message is the decimal timestamp, the uppercase method, the path
    stripped of any query string and the body, and the signature is the
    lowercase hexadecimal HMAC-SHA256 of it under the secret. *)

Module Signer.

(** The part of [s] before the first [c]. *)
Fixpoint before_first (c : ascii) (s : string) : string :=
  match s with
  | EmptyString => EmptyString
  | String a s' => if Ascii.eqb a c then EmptyString else String a (before_first c s')
  end.

Definition strip_query (path : string) : string := before_first "?" path.

Definition upper_char (a : ascii) : ascii :=
  let n := N_of_ascii a in
  if ((97 <=? n) && (n <=? 122))%N then ascii_of_N (n - 32) else a.

Fixpoint uppercase (s : string) : string :=
  match s with
  | EmptyString => EmptyString
  | String a s' => String (upper_char a) (uppercase s')
  end.

Definition lowercase_digits : list ascii :=
  list_ascii_of_string "0123456789abcdef".

Definition hex_lower (bs : bytes) : string :=
  string_of_list_ascii
    (flat_map (fun b => [ nth (Z.to_nat (Z_of_byte b / 16)) lowercase_digits "0"%char;
                          nth (Z.to_nat (Z_of_byte b mod 16)) lowercase_digits "0"%char ])
              bs).

Definition canonical_message (timestamp : Z) (method path body : string) : string :=
  str_of_int timestamp +++ uppercase method +++ strip_query path +++ body.

Definition sign (secret : string) (timestamp : Z) (method path body : string) : string :=
  hex_lower (HMAC.digest (encode_utf8 secret)
                         (encode_utf8 (canonical_message timestamp method path body))).

End Signer.

(** ** The vocabulary of the statements *)

(** Reading two hexadecimal digits back. *)
Definition unhex_digit (a : ascii) : Z :=
  let n := Z.of_N (N_of_ascii a) in if n <? 58 then n - 48 else n - 87.

Fixpoint unhex (s : string) : bytes :=
  match s with
  | String a (String b s') => byte_of_Z (16 * unhex_digit a + unhex_digit b) :: unhex s'
  | _ => []
  end.

(** The URL and the request of a call with a [str] cursor, at clock
    reading [now]. *)
Definition cb_url (url_path : string) (limit : Z) (cursor : string) : string :=
  let url := (url_prefix +++ url_path) +++ "?limit=" +++ str_of_int limit in
  if String.eqb cursor "" then url else (url +++ "&cursor=") +++ cursor.

Definition cb_request (api_key : option string) (secret_key : string)
    (url_path : string) (limit : Z) (cursor : string) (now : Z) : Request :=
  mk_request (cb_url url_path limit cursor)
    (cb_headers
       (cb_signature (encode_utf8 secret_key)
                     (encode_utf8 (cb_message (str_of_int now) url_path)))
       api_key (str_of_int now)).

(** The value of a header of a request. *)
Fixpoint header (name : string) (hs : list (string * option string)) : option string :=
  match hs with
  | [] => None
  | (n, v) :: hs' => if String.eqb name n then v else header name hs'
  end.

(** The requests a call issues: those [sent] after it and not before. *)
Definition issued {A} (m : Py A) (w : World) : list Request :=
  skipn (List.length (sent w)) (sent (snd (m w))).

Definition printed {A} (m : Py A) (w : World) : list string :=
  skipn (List.length (stdout w)) (stdout (snd (m w))).

Definition success_line (url : string) : string :=
  "HTTP connection " +++ url +++ " successful!".

(** A server that answers its [k]-th request with the [k]-th outcome of a
    script, and with [otherwise] once the script is over. *)
Definition scripted (outs : list NetOutcome) (otherwise : NetOutcome)
  : list Request -> NetOutcome :=
  fun rqs => nth (List.length rqs - 1) outs otherwise.

Definition cursor_text (v : json) : string :=
  match v with JStr s => s | _ => "" end.

(** The request of the turn that starts with the locals [l] in [w]. *)
Definition next_request (api_key : option string) (secret_key url_path : string)
    (limit : Z) (l : Locals) (w : World) : Request :=
  cb_request api_key secret_key url_path limit (cursor_text (cursor l)) (clock w (ticks w)).

(** The locals and the world after a turn that reads the page [p]. *)
Definition turn (api_key : option string) (secret_key url_path : string) (limit : Z)
    (l : Locals) (w : World) (p : Page) : Locals * World :=
  let rq := next_request api_key secret_key url_path limit l w in
  (extend l p, say (success_line (req_url rq)) (send rq (tick w))).

Fixpoint turns (api_key : option string) (secret_key url_path : string) (limit : Z)
    (l : Locals) (w : World) (ps : list Page) : Locals * World :=
  match ps with
  | [] => (l, w)
  | p :: ps' =>
      turns api_key secret_key url_path limit
        (fst (turn api_key secret_key url_path limit l w p))
        (snd (turn api_key secret_key url_path limit l w p)) ps'
  end.

(** The response [r] passes [raise_for_status] and reads as the page [p]. *)
Definition good (field : string) (r : Response) (p : Page) : Prop :=
  raise_for_status r = Return tt /\ read_page field (Some r) = Return p.

(** The page asks for another turn, and names its cursor. *)
Definition goes_on (p : Page) : Prop :=
  truthy (page_has_next p) = true /\ exists c, page_cursor p = JStr c.

(** The run that starts with the locals [l] in [w] gets, turn after turn,
    the responses [rs] to the requests it sends, and reads them as the
    pages [ps]. *)
Fixpoint reads (api_key : option string) (secret_key url_path : string) (limit : Z)
    (field : string) (l : Locals) (w : World) (rs : list Response) (ps : list Page)
  : Prop :=
  match rs, ps with
  | [], [] => True
  | r :: rs', p :: ps' =>
      server w (sent w ++ [next_request api_key secret_key url_path limit l w])
      = Responds r
      /\ good field r p
      /\ reads api_key secret_key url_path limit field
           (fst (turn api_key secret_key url_path limit l w p))
           (snd (turn api_key secret_key url_path limit l w p)) rs' ps'
  | _, _ => False
  end.

(** The answer of the server to the request of the turn that starts with
    [l] in [w]. *)
Definition answer (api_key : option string) (secret_key url_path : string) (limit : Z)
    (l : Locals) (w : World) : NetOutcome :=
  server w (sent w ++ [next_request api_key secret_key url_path limit l w]).

Definition sign_header (rq : Request) : option string :=
  header "CB-ACCESS-SIGN" (req_headers rq).

(** The signature headers of the requests a call sends. *)
Definition signatures (env : Env) (url_path : string) (limit : Z) (cursor : json)
    (w : World) : list (option string) :=
  map sign_header (issued (cb_connect env url_path limit cursor) w).

(** What [cb_get_all] makes of the way the loop ends. *)
Definition finish (r : option (Res Locals * World)) : option (Res Frame * World) :=
  match r with
  | None => None
  | Some (Return l, w') => Some (build_frame l, w')
  | Some (Raise e, w') => Some (Raise e, w')
  | Some (Unmodelled, w') => Some (Unmodelled, w')
  end.

(** The line a handler of [cb_connect] prints for an exception. *)
Definition handler_line (e : exn) : string :=
  if issubclass (exn_class e) urllib_HTTPError
  then "HTTP error occurred: " +++ exn_str e
  else "Other error occurred: " +++ exn_str e.

Definition no_text : exn :=
  mk_exn AttributeError "'NoneType' object has no attribute 'text'".

(** A run that is unfinished after any number of turns. *)
Definition diverges {A} (run : nat -> option A) : Prop :=
  forall fuel, run fuel = None.

(** A body the loop cannot read as a page: no JSON, no JSON object, an
    object without [has_next], [cursor] or the record field, or a record
    field that holds neither a list nor [null]. *)
Definition malformed (field : string) (b : body) : bool :=
  match b with
  | NotJSON _ => true
  | JSON (JObj d) =>
      match dict_get "has_next" d, dict_get "cursor" d, dict_get field d with
      | Some _, Some _, Some (JArr _) => false
      | Some _, Some _, Some JNull => false
      | _, _, _ => true
      end
  | JSON _ => true
  end.

Definition parse_errors : list exc_class := [JSONDecodeError; TypeError; KeyError].

(** The states of a run against a server that always answers with the same
    response. *)
Definition always_inv (r : Response) (l : Locals) (w : World) : Prop :=
  truthy (has_next l) = true
  /\ (exists c, cursor l = JStr c)
  /\ forall rqs, server w rqs = Responds r.

(** In a table made of records every row is as long as the list of
    columns, and a table without rows has no columns. *)
Definition shaped (f : Frame) : Prop :=
  Forall (fun row => List.length row = List.length (columns f)) (values f)
  /\ (values f = [] -> columns f = []).


(** ** Worlds to run the client in *)

Module Demo.

Definition env : Env := mk_env (Some "key") (Some "secret").

Definition clock (n : nat) : Z := 1700000000 + Z.of_nat n.

Definition refused : NetOutcome :=
  Fails (mk_exn requests_ConnectionError "connection refused").

(** A world whose server plays a script and refuses the connection after
    it. *)
Definition world (outs : list NetOutcome) : World :=
  mk_world clock 0 (scripted outs refused) [] [].

(** A world whose server gives the same answer for ever. *)
Definition world_always (out : NetOutcome) : World :=
  mk_world clock 0 (fun _ => out) [] [].

Definition page (field : string) (records : json) (has_next : bool) (cursor : string)
  : json :=
  JObj [(field, records); ("has_next", JBool has_next); ("cursor", JStr cursor)].

Definition response (j : json) : Response := mk_response 200 "OK" "" (JSON j).

Definition ok (j : json) : NetOutcome := Responds (response j).

Definition not_modified : NetOutcome :=
  Responds (mk_response 304 "Not Modified"
              "https://coinbase.com/api/v3/brokerage/accounts?limit=50" (NotJSON "")).

Definition not_found : NetOutcome :=
  Responds (mk_response 404 "Not Found"
              "https://coinbase.com/api/v3/brokerage/accounts?limit=50"
              (NotJSON "Expecting value: line 1 column 1 (char 0)")).

Definition account (uuid value : string) : json :=
  JObj [("uuid", JStr uuid);
        ("available_balance", JObj [("value", JStr value); ("currency", JStr "EUR")])].

Definition A : json := account "A" "1".
Definition B : json := account "B" "2".
Definition C : json := account "C" "3".

Definition accounts_path : string := "/api/v3/brokerage/accounts".
Definition orders_path : string := "/api/v3/brokerage/orders/historical/batch".

(** The table pandas makes of a list of accounts. *)
Definition table (records : list json) : Frame :=
  DataFrame_records (map (fun r => nested_to_record (as_dict r)) records).

(** A first page that goes on with the cursor [c], and what the loop reads
    from it. *)
Definition first_json (c : string) : json := page "accounts" (JArr [A; B]) true c.
Definition first_page (c : string) : Page := mk_page (JBool true) (JStr c) (table [A; B]).

(** Last pages: one with the account [C], one without accounts. *)
Definition last_json : json := page "accounts" (JArr [C]) false "".
Definition last_page : Page := mk_page (JBool false) (JStr "") (table [C]).

Definition empty_json : json := page "accounts" (JArr []) false "".
Definition empty_page : Page := mk_page (JBool false) (JStr "") (table []).

Definition connection_refused : exn := mk_exn requests_ConnectionError "connection refused".

End Demo.

(** * Properties *)

(** ** The library functions on known values *)

Example sha256_constants :
  List.length SHA256.primes = 64%nat
  /\ firstn 2 SHA256.K = [0x428a2f98; 0x71374491]
  /\ last SHA256.K 0 = 0xc67178f2
  /\ firstn 2 SHA256.H0 = [0x6a09e667; 0xbb67ae85].
Proof. vm_compute. repeat split. Qed.

Example sha256_abc :
  hex (SHA256.digest (encode_utf8 "abc"))
  = "ba7816bf8f01cfea414140de5dae2223b00361a396177a9cb410ff61f20015ad".
Proof. vm_compute. reflexivity. Qed.

Example sha256_empty :
  hex (SHA256.digest [])
  = "e3b0c44298fc1c149afbf4c8996fb92427ae41e4649b934ca495991b7852b855".
Proof. vm_compute. reflexivity. Qed.

Example hmac_rfc4231_case2 :
  hex (HMAC.digest (encode_utf8 "Jefe") (encode_utf8 "what do ya want for nothing?"))
  = "5bdcc146bf60754e6a042426089575c75a003f089d2739839dec58b964ec3843".
Proof. vm_compute. reflexivity. Qed.

Example str_of_int_examples :
  str_of_int 1700000000 = "1700000000" /\ str_of_int 0 = "0" /\ str_of_int (-5) = "-5".
Proof. repeat split. Qed.

Example split_examples :
  split "?" "/a/b?x=1?y" = ["/a/b"; "x=1"; "y"] /\ split "?" "" = [""] /\ split "?" "ab?" = ["ab"; ""].
Proof. repeat split. Qed.

(** ** Facts about text *)

Lemma append_assoc (a b c : string) : (a +++ b) +++ c = a +++ b +++ c.
Proof. induction a as [|x a IH]; simpl; [reflexivity | now rewrite IH]. Qed.

Lemma append_nil_r (a : string) : a +++ "" = a.
Proof. induction a as [|x a IH]; simpl; [reflexivity | now rewrite IH]. Qed.

Lemma append_inv_head (a b c : string) : a +++ b = a +++ c -> b = c.
Proof.
  induction a as [|x a IH]; simpl; intros H; [exact H | injection H; auto].
Qed.

Lemma list_ascii_of_append (a b : string) :
  list_ascii_of_string (a +++ b) = list_ascii_of_string a ++ list_ascii_of_string b.
Proof. induction a as [|x a IH]; simpl; [reflexivity | now rewrite IH]. Qed.

Lemma append_inv_tail (a b c : string) : a +++ c = b +++ c -> a = b.
Proof.
  intros H. apply (f_equal list_ascii_of_string) in H.
  rewrite !list_ascii_of_append in H. apply app_inv_tail in H.
  rewrite <- (string_of_list_ascii_of_string a), <- (string_of_list_ascii_of_string b).
  now rewrite H.
Qed.

Lemma Z_to_int_proper (n : Z) :
  Z.to_int n <> Decimal.Pos Decimal.Nil /\ Z.to_int n <> Decimal.Neg Decimal.Nil.
Proof.
  destruct n as [|p|p]; simpl; split; try discriminate;
    intros H; injection H; apply DecimalPos.Unsigned.to_uint_nonnil.
Qed.

(** Two integers with the same decimal rendering are equal. *)
Lemma str_of_int_inj (n m : Z) : str_of_int n = str_of_int m -> n = m.
Proof.
  unfold str_of_int. intros H.
  apply (f_equal NilZero.int_of_string) in H.
  destruct (Z_to_int_proper n) as [Hn1 Hn2], (Z_to_int_proper m) as [Hm1 Hm2].
  rewrite !NilZero.isi in H by assumption.
  injection H as H. rewrite <- (DecimalZ.of_to n), <- (DecimalZ.of_to m). now rewrite H.
Qed.

(** The first piece of [s.split(c)] is the part of [s] before the first
    [c]. *)
Lemma split_first (c : ascii) (s : string) :
  nth 0 (split c s) "" = Signer.before_first c s.
Proof.
  induction s as [|a s IH]; simpl; [reflexivity|].
  destruct (Ascii.eqb a c); [reflexivity|].
  destruct (split c s) as [|p ps]; simpl in *; now rewrite <- IH.
Qed.

Lemma hex_byte (b : byte) :
  [hex_digit (Z_of_byte b / 16); hex_digit (Z_of_byte b mod 16)]
  = [ nth (Z.to_nat (Z_of_byte b / 16)) Signer.lowercase_digits "0"%char;
      nth (Z.to_nat (Z_of_byte b mod 16)) Signer.lowercase_digits "0"%char ].
Proof. destruct b; reflexivity. Qed.

(** [bytes.hex()] is the lowercase hexadecimal rendering. *)
Lemma hex_is_lowercase (bs : bytes) : hex bs = Signer.hex_lower bs.
Proof.
  unfold Signer.hex_lower.
  induction bs as [|b bs IH]; [reflexivity|].
  cbn [hex flat_map]. pose proof (hex_byte b) as Hb. injection Hb as H1 H2.
  rewrite H1, H2, IH. reflexivity.
Qed.

Lemma unhex_byte (b : byte) :
  byte_of_Z (16 * unhex_digit (hex_digit (Z_of_byte b / 16))
             + unhex_digit (hex_digit (Z_of_byte b mod 16))) = b.
Proof. destruct b; reflexivity. Qed.

Lemma unhex_hex (bs : bytes) : unhex (hex bs) = bs.
Proof.
  induction bs as [|b bs IH]; [reflexivity|].
  cbn [hex unhex]. now rewrite unhex_byte, IH.
Qed.

Lemma hex_inj (a b : bytes) : hex a = hex b -> a = b.
Proof. intros H. rewrite <- (unhex_hex a), <- (unhex_hex b). now rewrite H. Qed.

Lemma encode_utf8_inj (a b : string) : encode_utf8 a = encode_utf8 b -> a = b.
Proof.
  unfold encode_utf8. intros H.
  rewrite <- (string_of_list_byte_of_string a), <- (string_of_list_byte_of_string b).
  now rewrite H.
Qed.

(** The message [cb_connect] signs is the canonical message of a [GET]
    without body. *)
Lemma cb_message_canonical (now : Z) (url_path : string) :
  cb_message (str_of_int now) url_path = Signer.canonical_message now "GET" url_path "".
Proof.
  unfold cb_message, Signer.canonical_message, Signer.strip_query.
  now rewrite split_first.
Qed.

(** ** What [cb_connect] sends and returns *)

Lemma skipn_length_app {A} (l l' : list A) : skipn (List.length l) (l ++ l') = l'.
Proof. induction l; simpl; auto. Qed.

Section Connect.

Variables (api_key : option string) (secret_key : string).
Variables (url_path : string) (limit : Z) (c : string) (w : World).

Let env := mk_env api_key (Some secret_key).
Let rq := cb_request api_key secret_key url_path limit c (clock w (ticks w)).

(** With a secret and a [str] cursor, [cb_connect] reads the clock once and
    sends one request; what follows depends on the answer. *)
Lemma cb_connect_run :
  cb_connect env url_path limit (JStr c) w =
  match server w (sent w ++ [rq]) with
  | Responds r =>
      match raise_for_status r with
      | Return _ => (Return (Some r), say (success_line (req_url rq)) (send rq (tick w)))
      | Raise e => (Return None, say ("Other error occurred: " +++ exn_str e) (send rq (tick w)))
      | Unmodelled => (Unmodelled, send rq (tick w))
      end
  | Fails e =>
      if issubclass (exn_class e) urllib_HTTPError
      then (Return None, say ("HTTP error occurred: " +++ exn_str e) (send rq (tick w)))
      else if issubclass (exn_class e) Exception
      then (Return None, say ("Other error occurred: " +++ exn_str e) (send rq (tick w)))
      else (Raise e, send rq (tick w))
  end.
Proof.
  subst rq env.
  unfold cb_connect, cb_request, cb_url, bind, lift, time_time, try_except, requests_get.
  cbn [CB_SECRET_KEY CB_API_KEY str_encode ne_empty str_add].
  destruct (String.eqb_spec c "") as [->|Hc]; cbn [negb];
    cbn [server sent tick req_url];
    (destruct (server w _) as [r|e]; [|cbn [find fst snd]];
     [ unfold raise_for_status, throw;
       destruct ((400 <=? status_code r) && (status_code r <? 500));
         [reflexivity|];
       destruct ((500 <=? status_code r) && (status_code r <? 600)); reflexivity
     | destruct (issubclass (exn_class e) urllib_HTTPError); [reflexivity|];
       destruct (issubclass (exn_class e) Exception); reflexivity ]).
Qed.

Lemma cb_connect_ok (r : Response) :
  server w (sent w ++ [rq]) = Responds r ->
  raise_for_status r = Return tt ->
  cb_connect env url_path limit (JStr c) w
  = (Return (Some r), say (success_line (req_url rq)) (send rq (tick w))).
Proof. intros Hs Hr. rewrite cb_connect_run. fold rq. now rewrite Hs, Hr. Qed.

End Connect.

(** With a cursor that is no [str], [cb_connect] raises before it sends
    anything. *)
Lemma cb_connect_cursor_not_str api_key secret_key url_path limit cursor w :
  (forall s, cursor <> JStr s) ->
  cb_connect (mk_env api_key (Some secret_key)) url_path limit cursor w
  = (Raise (mk_exn TypeError "can only concatenate str to str"), tick w).
Proof.
  intros H. destruct cursor as [|b|n|s|l|d]; try reflexivity. now destruct (H s).
Qed.


(** ** Runs of the pagination loop *)

Section Pagination.

Variables (api_key : option string) (secret_key : string).
Variables (url_path : string) (limit : Z) (field : string).

Let env := mk_env api_key (Some secret_key).

Local Abbreviation request_of := (next_request api_key secret_key url_path limit).
Local Abbreviation turn_of := (turn api_key secret_key url_path limit).
Local Abbreviation turns_of := (turns api_key secret_key url_path limit).
Local Abbreviation reads_of := (reads api_key secret_key url_path limit field).
Local Abbreviation answer_of := (answer api_key secret_key url_path limit).

Lemma loop_body_good l w r p :
  (exists c, cursor l = JStr c) ->
  server w (sent w ++ [request_of l w]) = Responds r ->
  good field r p ->
  loop_body env url_path limit field l w
  = (Return (fst (turn_of l w p)), snd (turn_of l w p)).
Proof.
  intros [c Hc] Hs [Hr Hp]. unfold loop_body, bind, next_request in *.
  rewrite Hc in *. cbn [cursor_text] in Hs.
  subst env. rewrite (cb_connect_ok _ _ _ _ _ _ r Hs Hr).
  unfold lift, ret. rewrite Hp. unfold turn, next_request. rewrite Hc. reflexivity.
Qed.

Lemma while_stops fuel l w :
  truthy (has_next l) = false ->
  while_has_next fuel env url_path limit field l w = Some (Return l, w).
Proof. intros H. destruct fuel; simpl; now rewrite H. Qed.

Lemma while_step fuel l w :
  truthy (has_next l) = true ->
  while_has_next (S fuel) env url_path limit field l w
  = match loop_body env url_path limit field l w with
    | (Return l', w') => while_has_next fuel env url_path limit field l' w'
    | (Raise e, w') => Some (Raise e, w')
    | (Unmodelled, w') => Some (Unmodelled, w')
    end.
Proof. intros H. simpl. now rewrite H. Qed.

(** More fuel does not change the way a finished loop ended. *)
Lemma while_fuel_more fuel : forall l w r,
  while_has_next fuel env url_path limit field l w = Some r ->
  while_has_next (S fuel) env url_path limit field l w = Some r.
Proof.
  induction fuel as [|fuel IH]; intros l w r H.
  - simpl in *. destruct (truthy (has_next l)); [discriminate | exact H].
  - cbn [while_has_next] in *. destruct (truthy (has_next l)); [|exact H].
    destruct (loop_body env url_path limit field l w) as [[l'| |] w']; auto.
Qed.

(** After a run of good pages that all go on, the loop is where [turns]
    says. *)
Lemma while_turns ps : forall rs l w,
  (exists c, cursor l = JStr c) ->
  truthy (has_next l) = true ->
  reads_of l w rs ps ->
  Forall goes_on ps ->
  (forall fuel,
      while_has_next (List.length ps + fuel) env url_path limit field l w
      = while_has_next fuel env url_path limit field
          (fst (turns_of l w ps)) (snd (turns_of l w ps)))
  /\ (exists c, cursor (fst (turns_of l w ps)) = JStr c)
  /\ truthy (has_next (fst (turns_of l w ps))) = true.
Proof.
  induction ps as [|p ps IH]; intros rs l w Hc Ht Hreads Hgo.
  - simpl. auto.
  - destruct rs as [|r rs]; [destruct Hreads|].
    destruct Hreads as (Hs & Hrp & Hreads).
    inversion Hgo as [|p' ps' [Hpt Hpc] Hgo']; subst.
    pose proof (loop_body_good l w r p Hc Hs Hrp) as Hbody.
    destruct (IH rs (fst (turn_of l w p)) (snd (turn_of l w p)))
      as (Hrun & Hc' & Ht'); auto.
    cbn [turns]. repeat split; auto.
    intros fuel. cbn [List.length Nat.add].
    rewrite while_step by exact Ht. rewrite Hbody. apply Hrun.
Qed.

(** What [turns] leaves behind. *)
Lemma turns_lst ps : forall l w,
  lst (fst (turns_of l w ps))
  = lst l ++ List.concat (map (fun p => values (page_df p)) ps).
Proof.
  induction ps as [|p ps IH]; intros l w; simpl.
  - now rewrite app_nil_r.
  - rewrite IH. simpl. now rewrite <- app_assoc.
Qed.

Lemma turns_app ps qs l w :
  turns_of l w (ps ++ qs)
  = turns_of (fst (turns_of l w ps)) (snd (turns_of l w ps)) qs.
Proof. revert l w. induction ps as [|p ps IH]; intros; simpl; auto. Qed.

Lemma turns_tmp_df ps p l w :
  tmp_df (fst (turns_of l w (ps ++ [p]))) = Some (page_df p)
  /\ has_next (fst (turns_of l w (ps ++ [p]))) = page_has_next p
  /\ cursor (fst (turns_of l w (ps ++ [p]))) = page_cursor p.
Proof. rewrite turns_app. simpl. auto. Qed.

Lemma turns_world ps : forall l w,
  server (snd (turns_of l w ps)) = server w
  /\ clock (snd (turns_of l w ps)) = clock w
  /\ ticks (snd (turns_of l w ps)) = (ticks w + List.length ps)%nat
  /\ List.length (sent (snd (turns_of l w ps)))
     = (List.length (sent w) + List.length ps)%nat.
Proof.
  induction ps as [|p ps IH]; intros l w.
  - simpl. repeat split; lia.
  - cbn [turns List.length].
    destruct (IH (fst (turn_of l w p)) (snd (turn_of l w p))) as (H1 & H2 & H3 & H4).
    rewrite H1, H2, H3, H4. simpl. rewrite length_app. simpl. repeat split; lia.
Qed.

End Pagination.

(** The example of the specification: two pages, [A; B] then [C]. *)
Example two_pages_aggregate :
  option_map fst
    (cb_get_all_accounts 2 Demo.env
       (Demo.world [ Demo.ok (Demo.page "accounts" (JArr [Demo.A; Demo.B]) true "c1");
                     Demo.ok (Demo.page "accounts" (JArr [Demo.C]) false "") ]))
  = Some (Return
            (mk_frame ["uuid"; "available_balance.value"; "available_balance.currency"]
               [ [Some (JStr "A"); Some (JStr "1"); Some (JStr "EUR")];
                 [Some (JStr "B"); Some (JStr "2"); Some (JStr "EUR")];
                 [Some (JStr "C"); Some (JStr "3"); Some (JStr "EUR")] ])).
Proof. vm_compute. reflexivity. Qed.

(** The same for orders, with their own path and limit. *)
Example two_pages_of_orders :
  option_map (fun rw => (fst rw, map req_url (sent (snd rw))))
    (cb_get_all_orders 2 Demo.env
       (Demo.world
          [ Demo.ok (Demo.page "orders" (JArr [JObj [("order_id", JStr "1")]]) true "c1");
            Demo.ok (Demo.page "orders" (JArr [JObj [("order_id", JStr "2")]]) false "") ]))
  = Some (Return (mk_frame ["order_id"] [[Some (JStr "1")]; [Some (JStr "2")]]),
          [ "https://coinbase.com/api/v3/brokerage/orders/historical/batch?limit=100";
            "https://coinbase.com/api/v3/brokerage/orders/historical/batch?limit=100&cursor=c1" ]).
Proof. vm_compute. reflexivity. Qed.

(** ** The signature (claims C4, C5, C8, C9) *)

Lemma cb_connect_issued api_key secret_key url_path limit c w :
  issued (cb_connect (mk_env api_key (Some secret_key)) url_path limit (JStr c)) w
  = [cb_request api_key secret_key url_path limit c (clock w (ticks w))].
Proof.
  unfold issued. rewrite cb_connect_run.
  destruct (server w _) as [r|e].
  - destruct (raise_for_status r); cbn [snd say send sent]; apply skipn_length_app.
  - destruct (issubclass (exn_class e) urllib_HTTPError);
      [|destruct (issubclass (exn_class e) Exception)];
      cbn [snd say send sent]; apply skipn_length_app.
Qed.

Lemma sign_header_request api_key secret_key url_path limit c now :
  sign_header (cb_request api_key secret_key url_path limit c now)
  = Some (Signer.sign secret_key now "GET" url_path "").
Proof.
  unfold sign_header, cb_request, cb_headers, Signer.sign, cb_signature.
  cbn [req_headers header String.eqb Ascii.eqb Bool.eqb].
  now rewrite cb_message_canonical, hex_is_lowercase.
Qed.

(** C4. Every request [cb_connect] sends carries, as its signature header,
    the lowercase hexadecimal HMAC-SHA256, keyed by the secret, of the
    canonical message: the decimal timestamp, the uppercase method [GET],
    the path before its first ['?'] and the empty body; the timestamp
    header carries the same decimal timestamp. *)
Theorem signature_header_is_hmac_of_canonical_message :
  forall api_key secret_key url_path limit c w,
    let now := clock w (ticks w) in
    exists rq,
      issued (cb_connect (mk_env api_key (Some secret_key)) url_path limit (JStr c)) w = [rq]
      /\ sign_header rq = Some (Signer.sign secret_key now "GET" url_path "")
      /\ Signer.canonical_message now "GET" url_path ""
         = str_of_int now +++ "GET" +++ Signer.before_first "?" url_path +++ ""
      /\ header "CB-ACCESS-TIMESTAMP" (req_headers rq) = Some (str_of_int now).
Proof.
  intros api_key secret_key url_path limit c w now.
  exists (cb_request api_key secret_key url_path limit c now).
  split; [apply cb_connect_issued|].
  split; [apply sign_header_request|].
  split; reflexivity.
Qed.

(** C5. Two calls with the same secret, the same clock reading and paths
    that agree before their first ['?'] send the same signature (indeed the
    same headers), whatever their limits and cursors, although limit and
    cursor are part of the URLs they request. *)
Theorem limit_and_cursor_do_not_enter_signature :
  forall api_key secret_key path1 path2 limit1 limit2 c1 c2 w1 w2,
    Signer.strip_query path1 = Signer.strip_query path2 ->
    clock w1 (ticks w1) = clock w2 (ticks w2) ->
    exists rq1 rq2,
      issued (cb_connect (mk_env api_key (Some secret_key)) path1 limit1 (JStr c1)) w1 = [rq1]
      /\ issued (cb_connect (mk_env api_key (Some secret_key)) path2 limit2 (JStr c2)) w2 = [rq2]
      /\ sign_header rq1 = sign_header rq2
      /\ req_headers rq1 = req_headers rq2
      /\ req_url rq1 = cb_url path1 limit1 c1
      /\ req_url rq2 = cb_url path2 limit2 c2.
Proof.
  intros api_key secret_key path1 path2 limit1 limit2 c1 c2 w1 w2 Hp Ht.
  eexists. eexists.
  split; [apply cb_connect_issued|]. split; [apply cb_connect_issued|].
  assert (Hm : cb_message (str_of_int (clock w1 (ticks w1))) path1
               = cb_message (str_of_int (clock w2 (ticks w2))) path2).
  { rewrite !cb_message_canonical. unfold Signer.canonical_message. now rewrite Hp, Ht. }
  unfold sign_header, cb_request. cbn [req_headers req_url].
  rewrite Hm, Ht. repeat split; reflexivity.
Qed.

Lemma limit_and_cursor_do_not_enter_signature_witness :
  exists rq1 rq2,
    issued (cb_connect Demo.env Demo.orders_path 50 (JStr "abc")) (Demo.world []) = [rq1]
    /\ issued (cb_connect Demo.env (Demo.orders_path +++ "?order_status=OPEN") 100 (JStr ""))
         (Demo.world [Demo.not_found]) = [rq2]
    /\ sign_header rq1 = sign_header rq2
    /\ req_headers rq1 = req_headers rq2
    /\ req_url rq1 = cb_url Demo.orders_path 50 "abc"
    /\ req_url rq2 = cb_url (Demo.orders_path +++ "?order_status=OPEN") 100 "".
Proof.
  apply (limit_and_cursor_do_not_enter_signature (Some "key") "secret"
           Demo.orders_path (Demo.orders_path +++ "?order_status=OPEN") 50 100 "abc" ""
           (Demo.world []) (Demo.world [Demo.not_found]));
    reflexivity.
Defined.

Lemma signatures_run api_key secret_key url_path limit c w :
  signatures (mk_env api_key (Some secret_key)) url_path limit (JStr c) w
  = [Some (cb_signature (encode_utf8 secret_key)
             (encode_utf8 (cb_message (str_of_int (clock w (ticks w))) url_path)))].
Proof. unfold signatures. now rewrite cb_connect_issued. Qed.

(** C8, as stated, fails: two calls that differ in the path alone, after
    its ['?'], send the same signature. *)
Lemma query_string_does_not_change_signature :
  (Demo.orders_path +++ "?product_id=BTC-EUR") <> (Demo.orders_path +++ "?product_id=ETH-EUR")
  /\ signatures Demo.env (Demo.orders_path +++ "?product_id=BTC-EUR") 100 (JStr "")
       (Demo.world [])
     = signatures Demo.env (Demo.orders_path +++ "?product_id=ETH-EUR") 100 (JStr "")
         (Demo.world []).
Proof. split; [discriminate | vm_compute; reflexivity]. Qed.

(** C8, amended. The signature is a function of the secret, the clock
    reading and the path before its first ['?'] (method and body are fixed):
    equal inputs give equal signatures.  A change of the clock reading
    alone, or of the path before its ['?'] alone, changes the signed
    message, a change of the secret changes the key, and two signatures are
    equal exactly when the two HMAC-SHA256 digests are. *)
Theorem signature_deterministic_and_message_sensitive :
  forall api_key s1 s2 p1 p2 limit1 limit2 c1 c2 w1 w2,
    let t1 := clock w1 (ticks w1) in
    let t2 := clock w2 (ticks w2) in
    let m1 := Signer.canonical_message t1 "GET" p1 "" in
    let m2 := Signer.canonical_message t2 "GET" p2 "" in
    exists sig1 sig2,
      signatures (mk_env api_key (Some s1)) p1 limit1 (JStr c1) w1 = [Some sig1]
      /\ signatures (mk_env api_key (Some s2)) p2 limit2 (JStr c2) w2 = [Some sig2]
      /\ (s1 = s2 -> t1 = t2 -> Signer.strip_query p1 = Signer.strip_query p2 -> sig1 = sig2)
      /\ (sig1 = sig2 <->
          HMAC.digest (encode_utf8 s1) (encode_utf8 m1)
          = HMAC.digest (encode_utf8 s2) (encode_utf8 m2))
      /\ (t1 <> t2 -> p1 = p2 -> m1 <> m2)
      /\ (t1 = t2 -> Signer.strip_query p1 <> Signer.strip_query p2 -> m1 <> m2)
      /\ (s1 <> s2 -> encode_utf8 s1 <> encode_utf8 s2).
Proof.
  intros api_key s1 s2 p1 p2 limit1 limit2 c1 c2 w1 w2 t1 t2 m1 m2.
  eexists. eexists.
  split; [apply signatures_run|]. split; [apply signatures_run|].
  fold t1 t2. rewrite !cb_message_canonical. fold m1 m2. unfold cb_signature.
  repeat split.
  - intros -> Ht Hp. subst m1 m2. unfold Signer.canonical_message. now rewrite Ht, Hp.
  - apply hex_inj.
  - intros H. now rewrite H.
  - intros Ht -> Hm. subst m1 m2. unfold Signer.canonical_message in Hm.
    apply append_inv_tail in Hm. apply Ht. now apply str_of_int_inj.
  - intros Ht Hp Hm. subst m1 m2. unfold Signer.canonical_message in Hm.
    rewrite Ht in Hm. apply append_inv_head in Hm. simpl in Hm.
    injection Hm as Hm. apply append_inv_tail in Hm. now apply Hp.
  - intros Hs He. apply Hs. now apply encode_utf8_inj.
Qed.

Lemma signature_deterministic_and_message_sensitive_witness :
  exists sig1 sig2,
    signatures Demo.env Demo.accounts_path 50 (JStr "") (Demo.world []) = [Some sig1]
    /\ signatures Demo.env Demo.accounts_path 50 (JStr "c1") (tick (Demo.world []))
       = [Some sig2]
    /\ Signer.canonical_message 1700000000 "GET" Demo.accounts_path ""
       <> Signer.canonical_message 1700000001 "GET" Demo.accounts_path "".
Proof.
  destruct (signature_deterministic_and_message_sensitive
              (Some "key") "secret" "secret" Demo.accounts_path Demo.accounts_path
              50 50 "" "c1" (Demo.world []) (tick (Demo.world [])))
    as (sig1 & sig2 & H1 & H2 & _ & _ & H5 & _).
  exists sig1, sig2. split; [exact H1|]. split; [exact H2|].
  apply H5; [discriminate | reflexivity].
Defined.



(** ** The transport (claim C6) *)

Lemma requests_error_not_urllib_error :
  issubclass requests_HTTPError urllib_HTTPError = false
  /\ issubclass requests_HTTPError Exception = true.
Proof. split; reflexivity. Qed.

(** A 4xx or 5xx status, like an exception of [requests.get] that is no
    [HTTPError] of urllib, is printed by the catch-all handler. *)
Lemma status_error_is_handled_by_catch_all api_key secret_key url_path limit c w r e :
  server w (sent w ++ [cb_request api_key secret_key url_path limit c (clock w (ticks w))])
  = Responds r ->
  raise_for_status r = Raise e ->
  exn_class e = requests_HTTPError
  /\ printed (cb_connect (mk_env api_key (Some secret_key)) url_path limit (JStr c)) w
     = ["Other error occurred: " +++ exn_str e]
  /\ fst (cb_connect (mk_env api_key (Some secret_key)) url_path limit (JStr c) w)
     = Return None.
Proof.
  intros Hs Hr. unfold printed. rewrite cb_connect_run, Hs, Hr.
  cbn [fst snd say send tick stdout]. split; [|split; [apply skipn_length_app | reflexivity]].
  unfold raise_for_status, throw in Hr.
  destruct ((400 <=? status_code r) && (status_code r <? 500));
    [now inversion Hr|].
  destruct ((500 <=? status_code r) && (status_code r <? 600));
    [now inversion Hr | discriminate].
Qed.

(** C6: what the code does with a 404.  The [HTTPError] that
    [raise_for_status] raises is the one of requests, the [HTTPError] the
    first handler names is the one of urllib: the error is reported by the
    catch-all handler, like a refused connection, and [None] is returned in
    both cases.  A 304, which [raise_for_status] lets pass, is reported as a
    success. *)
Theorem http_404_is_reported_by_the_catch_all_handler :
  cb_connect Demo.env Demo.accounts_path 50 (JStr "") (Demo.world [Demo.not_found])
  = (Return None,
     mk_world Demo.clock 1 (scripted [Demo.not_found] Demo.refused)
       [cb_request (Some "key") "secret" Demo.accounts_path 50 "" 1700000000]
       ["Other error occurred: 404 Client Error: Not Found for url: https://coinbase.com/api/v3/brokerage/accounts?limit=50"])
  /\ printed (cb_connect Demo.env Demo.accounts_path 50 (JStr "")) (Demo.world [])
     = ["Other error occurred: connection refused"]
  /\ fst (cb_connect Demo.env Demo.accounts_path 50 (JStr "") (Demo.world []))
     = Return None
  /\ printed (cb_connect Demo.env Demo.accounts_path 50 (JStr ""))
       (Demo.world [Demo.not_modified])
     = ["HTTP connection https://coinbase.com/api/v3/brokerage/accounts?limit=50 successful!"]
  /\ issubclass requests_HTTPError urllib_HTTPError = false.
Proof.
  unfold Demo.env. split; [|split; [|split; [|split]]].
  - rewrite cb_connect_run. reflexivity.
  - unfold printed. rewrite cb_connect_run. reflexivity.
  - rewrite cb_connect_run. reflexivity.
  - unfold printed. rewrite cb_connect_run. reflexivity.
  - reflexivity.
Qed.

(** ** The pagination as a whole *)

Lemma cb_get_all_finish fuel env url_path limit field w :
  cb_get_all fuel env url_path limit field w
  = finish (while_has_next fuel env url_path limit field start w).
Proof. reflexivity. Qed.

Section Turn.

Variables (api_key : option string) (secret_key : string).
Variables (url_path : string) (limit : Z) (field : string).

Let env := mk_env api_key (Some secret_key).

(** A turn of the loop, by the answer of the server. *)
Lemma loop_body_run l w :
  (exists c, cursor l = JStr c) ->
  let rq := next_request api_key secret_key url_path limit l w in
  let w' := send rq (tick w) in
  loop_body env url_path limit field l w =
  match answer api_key secret_key url_path limit l w with
  | Responds r =>
      match raise_for_status r with
      | Return _ =>
          match read_page field (Some r) with
          | Return p => (Return (extend l p), say (success_line (req_url rq)) w')
          | Raise e => (Raise e, say (success_line (req_url rq)) w')
          | Unmodelled => (Unmodelled, say (success_line (req_url rq)) w')
          end
      | Raise e => (Raise no_text, say ("Other error occurred: " +++ exn_str e) w')
      | Unmodelled => (Unmodelled, w')
      end
  | Fails e =>
      if issubclass (exn_class e) Exception
      then (Raise no_text, say (handler_line e) w')
      else (Raise e, w')
  end.
Proof.
  intros [c Hc] rq w'. subst rq w'.
  unfold answer, loop_body, bind, next_request, handler_line.
  rewrite Hc. cbn [cursor_text]. subst env. rewrite cb_connect_run.
  destruct (server w _) as [r|e].
  - destruct (raise_for_status r); reflexivity.
  - destruct (issubclass (exn_class e) urllib_HTTPError) eqn:Hu.
    + assert (He : issubclass (exn_class e) Exception = true)
        by (destruct e as [[] ?]; simpl in *; try discriminate; reflexivity).
      rewrite He. reflexivity.
    + destruct (issubclass (exn_class e) Exception); reflexivity.
Qed.

(** The pagination after a run of good pages that all go on. *)
Lemma run_turns rs ps w :
  reads api_key secret_key url_path limit field start w rs ps ->
  Forall goes_on ps ->
  let l := fst (turns api_key secret_key url_path limit start w ps) in
  let w' := snd (turns api_key secret_key url_path limit start w ps) in
  (forall fuel,
      cb_get_all (List.length ps + fuel) env url_path limit field w
      = finish (while_has_next fuel env url_path limit field l w'))
  /\ (exists c, cursor l = JStr c)
  /\ truthy (has_next l) = true.
Proof.
  intros Hreads Hgo l w'.
  destruct (while_turns api_key secret_key url_path limit field ps rs start w)
    as (Hrun & Hc & Ht); auto.
  - exists "". reflexivity.
  - repeat split; auto. intros fuel. rewrite cb_get_all_finish. subst env.
    now rewrite Hrun.
Qed.

(** The pagination when the turn after such a run raises. *)
Lemma run_turns_raise rs ps w e w2 fuel :
  reads api_key secret_key url_path limit field start w rs ps ->
  Forall goes_on ps ->
  (List.length ps < fuel)%nat ->
  loop_body env url_path limit field
    (fst (turns api_key secret_key url_path limit start w ps))
    (snd (turns api_key secret_key url_path limit start w ps)) = (Raise e, w2) ->
  cb_get_all fuel env url_path limit field w = Some (Raise e, w2).
Proof.
  intros Hreads Hgo Hfuel Hbody.
  destruct (run_turns rs ps w Hreads Hgo) as (Hrun & _ & Ht).
  replace fuel with (List.length ps + S (fuel - S (List.length ps)))%nat by lia.
  subst env. rewrite Hrun, while_step by exact Ht. now rewrite Hbody.
Qed.

End Turn.

(** ** Failures in the middle of the pagination (claims C3, C7) *)

Lemma demo_first_page_good c :
  good "accounts" (Demo.response (Demo.first_json c)) (Demo.first_page c)
  /\ goes_on (Demo.first_page c).
Proof.
  split; [split; reflexivity|]. split; [reflexivity|]. exists c. reflexivity.
Qed.

Lemma demo_first_page_read c outs :
  reads (Some "key") "secret" Demo.accounts_path 50 "accounts" start
    (Demo.world (Demo.ok (Demo.first_json c) :: outs))
    [Demo.response (Demo.first_json c)] [Demo.first_page c].
Proof. split; [reflexivity|]. split; [apply demo_first_page_good | exact I]. Qed.

(** C3, as stated, fails: when the second fetch is refused, the caller gets
    an [AttributeError], not the connection error, which was printed. *)
Lemma refused_second_fetch_surfaces_as_attribute_error :
  option_map fst
    (cb_get_all_accounts 2 Demo.env
       (Demo.world [Demo.ok (Demo.first_json "c1"); Demo.refused]))
  = Some (Raise no_text)
  /\ option_map (fun rw => stdout (snd rw))
       (cb_get_all_accounts 2 Demo.env
          (Demo.world [Demo.ok (Demo.first_json "c1"); Demo.refused]))
     = Some [ "HTTP connection https://coinbase.com/api/v3/brokerage/accounts?limit=50 successful!";
              "Other error occurred: connection refused" ]
  /\ no_text <> Demo.connection_refused.
Proof. split; [|split]; [vm_compute; reflexivity .. | discriminate]. Qed.

(** C3, amended. After any run of good pages, a fetch that fails ends the
    pagination with an exception and without a table, after exactly one
    request for that page (no retry).  An exception of [requests.get] (of
    class [Exception]) or a 4xx or 5xx status is printed by [cb_connect] and
    the caller gets [AttributeError] instead of it; a page that does not
    parse raises its own exception to the caller, unchanged, and so does
    an exception of [requests.get] that is not of class [Exception]. *)
Theorem failed_fetch_ends_pagination_without_table :
  forall api_key secret_key url_path limit field rs ps w fuel,
    reads api_key secret_key url_path limit field start w rs ps ->
    Forall goes_on ps ->
    (List.length ps < fuel)%nat ->
    let env := mk_env api_key (Some secret_key) in
    let l := fst (turns api_key secret_key url_path limit start w ps) in
    let w1 := snd (turns api_key secret_key url_path limit start w ps) in
    let rq := next_request api_key secret_key url_path limit l w1 in
    let w2 := send rq (tick w1) in
    (forall e, answer api_key secret_key url_path limit l w1 = Fails e ->
       issubclass (exn_class e) Exception = true ->
       cb_get_all fuel env url_path limit field w
       = Some (Raise no_text, say (handler_line e) w2))
    /\ (forall r e, answer api_key secret_key url_path limit l w1 = Responds r ->
          raise_for_status r = Raise e ->
          cb_get_all fuel env url_path limit field w
          = Some (Raise no_text, say ("Other error occurred: " +++ exn_str e) w2))
    /\ (forall r e, answer api_key secret_key url_path limit l w1 = Responds r ->
          raise_for_status r = Return tt ->
          read_page field (Some r) = Raise e ->
          cb_get_all fuel env url_path limit field w
          = Some (Raise e, say (success_line (req_url rq)) w2))
    /\ (forall e, answer api_key secret_key url_path limit l w1 = Fails e ->
          issubclass (exn_class e) Exception = false ->
          cb_get_all fuel env url_path limit field w = Some (Raise e, w2)).
Proof.
  intros api_key secret_key url_path limit field rs ps w fuel
         Hreads Hgo Hfuel env l w1 rq w2.
  subst w2 rq l w1 env.
  destruct (run_turns api_key secret_key url_path limit field rs ps w Hreads Hgo)
    as (_ & Hc & _).
  pose proof (loop_body_run api_key secret_key url_path limit field _
                (snd (turns api_key secret_key url_path limit start w ps)) Hc) as Hbody.
  cbv zeta in Hbody.
  repeat split.
  - intros e Ha He. rewrite Ha, He in Hbody.
    eapply run_turns_raise; eauto.
  - intros r e Ha Hr. rewrite Ha, Hr in Hbody.
    eapply run_turns_raise; eauto.
  - intros r e Ha Hr Hp. rewrite Ha, Hr, Hp in Hbody.
    eapply run_turns_raise; eauto.
  - intros e Ha He. rewrite Ha, He in Hbody.
    eapply run_turns_raise; eauto.
Qed.

Lemma failed_fetch_ends_pagination_without_table_witness :
  cb_get_all 2 Demo.env Demo.accounts_path 50 "accounts"
    (Demo.world [Demo.ok (Demo.first_json "c1"); Demo.refused])
  = Some (Raise no_text,
          say (handler_line Demo.connection_refused)
            (send (next_request (Some "key") "secret" Demo.accounts_path 50
                     (fst (turns (Some "key") "secret" Demo.accounts_path 50 start
                             (Demo.world [Demo.ok (Demo.first_json "c1"); Demo.refused])
                             [Demo.first_page "c1"]))
                     (snd (turns (Some "key") "secret" Demo.accounts_path 50 start
                             (Demo.world [Demo.ok (Demo.first_json "c1"); Demo.refused])
                             [Demo.first_page "c1"])))
               (tick (snd (turns (Some "key") "secret" Demo.accounts_path 50 start
                             (Demo.world [Demo.ok (Demo.first_json "c1"); Demo.refused])
                             [Demo.first_page "c1"]))))).
Proof.
  refine (proj1 (failed_fetch_ends_pagination_without_table
                   (Some "key") "secret" Demo.accounts_path 50 "accounts"
                   [Demo.response (Demo.first_json "c1")] [Demo.first_page "c1"]
                   (Demo.world [Demo.ok (Demo.first_json "c1"); Demo.refused]) 2
                   _ _ _) Demo.connection_refused eq_refl eq_refl).
  - apply demo_first_page_read.
  - constructor; [apply demo_first_page_good | constructor].
  - unfold lt. simpl. apply le_n.
Defined.

Lemma malformed_raises field r :
  malformed field (text r) = true ->
  exists e, In (exn_class e) parse_errors /\ read_page field (Some r) = Raise e.
Proof.
  unfold malformed, read_page, parse_errors. cbn [response_text rbind].
  destruct (text r) as [msg|j]; cbn [json_loads rbind].
  - intros _. eexists. split; [|reflexivity]. simpl. auto.
  - destruct j as [|b|n|s|a|d]; cbn [getitem rbind throw];
      try (intros _; eexists; split; [|reflexivity]; simpl; now auto).
    destruct (dict_get "has_next" d) as [h|]; cbn [rbind];
      [|intros _; eexists; split; [|reflexivity]; simpl; now auto].
    destruct (dict_get "cursor" d) as [cu|]; cbn [rbind];
      [|intros _; eexists; split; [|reflexivity]; simpl; now auto].
    unfold json_normalize, pull_records.
    destruct (dict_get field d) as [v|]; cbn [rbind throw];
      [|intros _; eexists; split; [|reflexivity]; simpl; now auto].
    destruct v; try discriminate;
      intros _; eexists; (split; [|reflexivity]); simpl; auto.
Qed.

(** C7, as stated, fails: a page whose record field holds [null] instead of
    a list is read as a page without records, and the pagination returns an
    empty table. *)
Lemma null_record_field_reads_as_empty_page :
  option_map fst
    (cb_get_all_accounts 1 Demo.env
       (Demo.world [Demo.ok (Demo.page "accounts" JNull false "")]))
  = Some (Return (mk_frame [] []))
  /\ malformed "accounts" (JSON (Demo.page "accounts" JNull false "")) = false.
Proof. split; vm_compute; reflexivity. Qed.

(** C7, amended. After any run of good pages, a response that passes
    [raise_for_status] with a body that is no JSON, no JSON object, lacks
    [has_next], [cursor] or the record field, or holds there something that
    is neither a list nor [null], ends the pagination with the exception of
    the parsing step ([JSONDecodeError], [TypeError] or [KeyError]), raised
    to the caller: no table is returned and no further request is sent.
    ([null] in the record field is read as an empty list.) *)
Theorem malformed_page_raises_to_caller :
  forall api_key secret_key url_path limit field rs ps r w fuel,
    reads api_key secret_key url_path limit field start w rs ps ->
    Forall goes_on ps ->
    (List.length ps < fuel)%nat ->
    let l := fst (turns api_key secret_key url_path limit start w ps) in
    let w1 := snd (turns api_key secret_key url_path limit start w ps) in
    let rq := next_request api_key secret_key url_path limit l w1 in
    answer api_key secret_key url_path limit l w1 = Responds r ->
    raise_for_status r = Return tt ->
    malformed field (text r) = true ->
    exists e,
      In (exn_class e) parse_errors
      /\ read_page field (Some r) = Raise e
      /\ cb_get_all fuel (mk_env api_key (Some secret_key)) url_path limit field w
         = Some (Raise e, say (success_line (req_url rq)) (send rq (tick w1))).
Proof.
  intros api_key secret_key url_path limit field rs ps r w fuel
         Hreads Hgo Hfuel l w1 rq Ha Hr Hm.
  destruct (malformed_raises field r Hm) as (e & Hin & He).
  exists e. split; [exact Hin|]. split; [exact He|].
  subst rq l w1.
  destruct (run_turns api_key secret_key url_path limit field rs ps w Hreads Hgo)
    as (_ & Hc & _).
  pose proof (loop_body_run api_key secret_key url_path limit field _
                (snd (turns api_key secret_key url_path limit start w ps)) Hc) as Hbody.
  cbv zeta in Hbody. rewrite Ha, Hr, He in Hbody.
  eapply run_turns_raise; eauto.
Qed.

Lemma malformed_page_raises_to_caller_witness :
  exists e,
    In (exn_class e) parse_errors
    /\ read_page "accounts"
         (Some (Demo.response (JObj [("has_next", JBool false); ("cursor", JStr "")])))
       = Raise e
    /\ cb_get_all 2 Demo.env Demo.accounts_path 50 "accounts"
         (Demo.world [ Demo.ok (Demo.first_json "c1");
                       Demo.ok (JObj [("has_next", JBool false); ("cursor", JStr "")]) ])
       = Some (Raise e,
               say (success_line (cb_url Demo.accounts_path 50 "c1"))
                 (send (cb_request (Some "key") "secret" Demo.accounts_path 50 "c1" 1700000001)
                    (tick (snd (turns (Some "key") "secret" Demo.accounts_path 50 start
                                  (Demo.world
                                     [ Demo.ok (Demo.first_json "c1");
                                       Demo.ok (JObj [("has_next", JBool false);
                                                      ("cursor", JStr "")]) ])
                                  [Demo.first_page "c1"]))))).
Proof.
  refine (malformed_page_raises_to_caller
            (Some "key") "secret" Demo.accounts_path 50 "accounts"
            [Demo.response (Demo.first_json "c1")] [Demo.first_page "c1"]
            (Demo.response (JObj [("has_next", JBool false); ("cursor", JStr "")]))
            (Demo.world [ Demo.ok (Demo.first_json "c1");
                          Demo.ok (JObj [("has_next", JBool false); ("cursor", JStr "")]) ])
            2 _ _ _ _ _ _).
  - apply demo_first_page_read.
  - constructor; [apply demo_first_page_good | constructor].
  - unfold lt. simpl. apply le_n.
  - reflexivity.
  - reflexivity.
  - reflexivity.
Defined.

(** ** The cursor (claim C10) *)

(** C10, as stated, fails: a first page with [has_next] true and an empty
    cursor raises nothing; the client requests the same URL again, without
    cursor, and goes on. *)
Lemma empty_cursor_requests_first_page_again :
  option_map (fun rw => map req_url (sent (snd rw)))
    (cb_get_all_accounts 2 Demo.env
       (Demo.world [Demo.ok (Demo.first_json ""); Demo.ok Demo.last_json]))
  = Some [ "https://coinbase.com/api/v3/brokerage/accounts?limit=50";
           "https://coinbase.com/api/v3/brokerage/accounts?limit=50" ]
  /\ option_map fst
       (cb_get_all_accounts 2 Demo.env
          (Demo.world [Demo.ok (Demo.first_json ""); Demo.ok Demo.last_json]))
     = Some (Return (Demo.table [Demo.A; Demo.B; Demo.C])).
Proof. split; vm_compute; reflexivity. Qed.

(** C10, amended. The loop does not check the cursor of a page that
    reports [has_next].  When, after any run of good pages, the last page
    read has a true [has_next] and the empty string as cursor, the loop
    goes on: the call raises nothing there, it issues the next request
    with the URL of the first request, the path and the limit with no
    cursor parameter, and the answer to it is read like any other page.
    With a good answer the call continues from the locals extended by
    that page, and when that page does not go on the call ends there and
    builds its table. *)
Theorem empty_cursor_is_sent_as_first_page_request :
  forall api_key secret_key url_path limit field rs ps p r' p' w,
    reads api_key secret_key url_path limit field start w rs (ps ++ [p]) ->
    Forall goes_on (ps ++ [p]) ->
    page_cursor p = JStr "" ->
    let env := mk_env api_key (Some secret_key) in
    let l := fst (turns api_key secret_key url_path limit start w (ps ++ [p])) in
    let w1 := snd (turns api_key secret_key url_path limit start w (ps ++ [p])) in
    let rq := next_request api_key secret_key url_path limit l w1 in
    let w2 := say (success_line (req_url rq)) (send rq (tick w1)) in
    answer api_key secret_key url_path limit l w1 = Responds r' ->
    good field r' p' ->
    truthy (has_next l) = true
    /\ cursor l = JStr ""
    /\ req_url rq = (url_prefix +++ url_path) +++ "?limit=" +++ str_of_int limit
    /\ req_url rq = req_url (next_request api_key secret_key url_path limit start w)
    /\ loop_body env url_path limit field l w1 = (Return (extend l p'), w2)
    /\ sent w2 = sent w1 ++ [rq]
    /\ (forall fuel,
           cb_get_all (List.length (ps ++ [p]) + S fuel) env url_path limit field w
           = finish (while_has_next fuel env url_path limit field (extend l p') w2))
    /\ (forall fuel,
           truthy (page_has_next p') = false ->
           (List.length (ps ++ [p]) < fuel)%nat ->
           cb_get_all fuel env url_path limit field w
           = Some (build_frame (extend l p'), w2)).
Proof.
  intros api_key secret_key url_path limit field rs ps p r' p' w
         Hreads Hgo Hcur env l w1 rq w2 Ha Hgood'.
  subst w2 rq l w1 env.
  destruct (run_turns api_key secret_key url_path limit field rs (ps ++ [p]) w Hreads Hgo)
    as (Hrun & Hc & Ht).
  destruct (turns_tmp_df api_key secret_key url_path limit ps p start w) as (_ & _ & Hcp).
  rewrite Hcur in Hcp.
  split; [exact Ht|]. split; [exact Hcp|].
  assert (Hurl : forall w', req_url (next_request api_key secret_key url_path limit
                   (fst (turns api_key secret_key url_path limit start w (ps ++ [p]))) w')
                 = (url_prefix +++ url_path) +++ "?limit=" +++ str_of_int limit).
  { intros w'. unfold next_request. rewrite Hcp. reflexivity. }
  split; [apply Hurl|]. split; [rewrite Hurl; reflexivity|].
  pose proof (loop_body_run api_key secret_key url_path limit field _
                (snd (turns api_key secret_key url_path limit start w (ps ++ [p]))) Hc)
    as Hbody.
  cbv zeta in Hbody. destruct Hgood' as [Hr Hp].
  rewrite Ha, Hr, Hp in Hbody.
  split; [exact Hbody|]. split; [reflexivity|].
  assert (Hon : forall fuel,
             cb_get_all (List.length (ps ++ [p]) + S fuel)
               (mk_env api_key (Some secret_key)) url_path limit field w
             = finish (while_has_next fuel (mk_env api_key (Some secret_key)) url_path
                         limit field
                         (extend (fst (turns api_key secret_key url_path limit start w
                                         (ps ++ [p]))) p')
                         (say (success_line
                                 (req_url
                                    (next_request api_key secret_key url_path limit
                                       (fst (turns api_key secret_key url_path limit start w
                                               (ps ++ [p])))
                                       (snd (turns api_key secret_key url_path limit start w
                                               (ps ++ [p]))))))
                            (send (next_request api_key secret_key url_path limit
                                     (fst (turns api_key secret_key url_path limit start w
                                             (ps ++ [p])))
                                     (snd (turns api_key secret_key url_path limit start w
                                             (ps ++ [p]))))
                               (tick (snd (turns api_key secret_key url_path limit start w
                                             (ps ++ [p])))))))).
  { intros fuel. rewrite Hrun, while_step by exact Ht. now rewrite Hbody. }
  split; [exact Hon|].
  intros fuel Hstop Hfuel.
  replace fuel with (List.length (ps ++ [p]) + S (fuel - S (List.length (ps ++ [p]))))%nat
    by lia.
  rewrite Hon, while_stops by exact Hstop. reflexivity.
Qed.

Lemma demo_last_page_good :
  good "accounts" (Demo.response Demo.last_json) Demo.last_page.
Proof. split; reflexivity. Qed.

Lemma empty_cursor_is_sent_as_first_page_request_witness :
  truthy (has_next (fst (turns (Some "key") "secret" Demo.accounts_path 50 start
                           (Demo.world [Demo.ok (Demo.first_json ""); Demo.ok Demo.last_json])
                           [Demo.first_page ""]))) = true
  /\ req_url (next_request (Some "key") "secret" Demo.accounts_path 50
                (fst (turns (Some "key") "secret" Demo.accounts_path 50 start
                        (Demo.world [Demo.ok (Demo.first_json ""); Demo.ok Demo.last_json])
                        [Demo.first_page ""]))
                (snd (turns (Some "key") "secret" Demo.accounts_path 50 start
                        (Demo.world [Demo.ok (Demo.first_json ""); Demo.ok Demo.last_json])
                        [Demo.first_page ""])))
     = (url_prefix +++ Demo.accounts_path) +++ "?limit=" +++ str_of_int 50
  /\ option_map fst
       (cb_get_all 2 Demo.env Demo.accounts_path 50 "accounts"
          (Demo.world [Demo.ok (Demo.first_json ""); Demo.ok Demo.last_json]))
     = Some (Return (Demo.table [Demo.A; Demo.B; Demo.C])).
Proof.
  pose proof (empty_cursor_is_sent_as_first_page_request
                (Some "key") "secret" Demo.accounts_path 50 "accounts"
                [Demo.response (Demo.first_json "")] [] (Demo.first_page "")
                (Demo.response Demo.last_json) Demo.last_page
                (Demo.world [Demo.ok (Demo.first_json ""); Demo.ok Demo.last_json])
                (demo_first_page_read "" _)
                (Forall_cons _ (proj2 (demo_first_page_good "")) (Forall_nil _))
                eq_refl eq_refl demo_last_page_good) as H.
  cbv zeta in H. destruct H as (H1 & _ & H3 & _ & _ & _ & _ & H8).
  split; [exact H1|]. split; [exact H3|].
  unfold Demo.env. rewrite (H8 2%nat eq_refl (le_n 2)). reflexivity.
Defined.

(** ** Termination (claim C2) *)

(** When the locals and the world stay, turn after turn, in a set of states
    in which [has_next] is true and the turn ends normally, no number of
    turns ends the loop. *)
Lemma while_never_stops env url_path limit field (inv : Locals -> World -> Prop) :
  (forall l w, inv l w ->
     truthy (has_next l) = true
     /\ exists l' w', loop_body env url_path limit field l w = (Return l', w') /\ inv l' w') ->
  forall fuel l w, inv l w -> while_has_next fuel env url_path limit field l w = None.
Proof.
  intros Hstep fuel. induction fuel as [|fuel IH]; intros l w Hinv;
    destruct (Hstep l w Hinv) as (Ht & l' & w' & Hbody & Hinv').
  - simpl. now rewrite Ht.
  - simpl. rewrite Ht, Hbody. now apply IH.
Qed.

Lemma always_inv_step api_key secret_key url_path limit field r p :
  good field r p -> goes_on p ->
  forall l w, always_inv r l w ->
    truthy (has_next l) = true
    /\ exists l' w',
         loop_body (mk_env api_key (Some secret_key)) url_path limit field l w
         = (Return l', w')
         /\ always_inv r l' w'.
Proof.
  intros Hgood [Htp Hcp] l w (Ht & Hc & Hs). split; [exact Ht|].
  exists (fst (turn api_key secret_key url_path limit l w p)),
         (snd (turn api_key secret_key url_path limit l w p)).
  split.
  - apply (loop_body_good api_key secret_key url_path limit field l w r p); auto.
  - repeat split; auto.
Qed.

(** C2, as stated, fails: against a server that reports [has_next] with
    every page, the pagination does not end, whatever the number of turns
    it is given. *)
Lemma always_has_next_never_returns :
  diverges (fun fuel =>
              cb_get_all_accounts fuel Demo.env
                (Demo.world_always (Demo.ok (Demo.first_json "c1")))).
Proof.
  intros fuel. unfold cb_get_all_accounts. rewrite cb_get_all_finish.
  rewrite (while_never_stops Demo.env _ _ _
             (always_inv (Demo.response (Demo.first_json "c1")))).
  - reflexivity.
  - apply (always_inv_step (Some "key") "secret" _ _ _ _ (Demo.first_page "c1"));
      apply demo_first_page_good.
  - split; [reflexivity | split; [exists ""; reflexivity | reflexivity]].
Qed.

(** The loop returns only with locals whose [has_next] is false. *)
Lemma while_returns_without_next env url_path limit field fuel : forall l w l' w',
  while_has_next fuel env url_path limit field l w = Some (Return l', w') ->
  truthy (has_next l') = false.
Proof.
  induction fuel as [|fuel IH]; intros l w l' w' H; cbn [while_has_next] in H;
    destruct (truthy (has_next l)) eqn:Ht; try discriminate;
    try (injection H as <- <-; exact Ht).
  destruct (loop_body env url_path limit field l w) as [[l1| |] w1];
    try discriminate. eapply IH; eauto.
Qed.

(** C2, amended. The loop has no bound on its turns and no error for
    too many pages.  It returns only once a page has reported a false
    [has_next]; for as long as every turn ends normally with a true
    [has_next], the pagination is unfinished after any number of turns, so
    that against a server that always reports [has_next] it never
    returns. *)
Theorem pagination_is_unbounded :
  forall env url_path limit field,
    (forall fuel w l' w',
        while_has_next fuel env url_path limit field start w = Some (Return l', w') ->
        truthy (has_next l') = false)
    /\ (forall (inv : Locals -> World -> Prop) w,
          inv start w ->
          (forall l w, inv l w ->
             truthy (has_next l) = true
             /\ exists l' w', loop_body env url_path limit field l w = (Return l', w')
                              /\ inv l' w') ->
          diverges (fun fuel => cb_get_all fuel env url_path limit field w)).
Proof.
  intros env url_path limit field. split.
  - intros fuel w l' w'. apply while_returns_without_next.
  - intros inv w H0 Hstep fuel. rewrite cb_get_all_finish.
    now rewrite (while_never_stops env url_path limit field inv Hstep fuel start w H0).
Qed.

Lemma pagination_is_unbounded_witness :
  diverges (fun fuel =>
              cb_get_all fuel Demo.env Demo.accounts_path 50 "accounts"
                (Demo.world_always (Demo.ok (Demo.first_json "next")))).
Proof.
  apply (proj2 (pagination_is_unbounded Demo.env Demo.accounts_path 50 "accounts")
           (always_inv (Demo.response (Demo.first_json "next")))).
  - split; [reflexivity | split; [exists ""; reflexivity | reflexivity]].
  - apply (always_inv_step (Some "key") "secret" _ _ _ _ (Demo.first_page "next"));
      apply demo_first_page_good.
Defined.

(** ** The aggregate (claim C1) *)

Lemma DataFrame_records_shaped records : shaped (DataFrame_records records).
Proof.
  unfold shaped, DataFrame_records. cbn [columns values]. split.
  - apply Forall_forall. intros row Hin. apply in_map_iff in Hin.
    destruct Hin as (d & <- & _). apply length_map.
  - destruct records; [reflexivity | discriminate].
Qed.

Lemma read_page_shaped field r p :
  read_page field r = Return p -> shaped (page_df p).
Proof.
  unfold read_page. destruct (response_text r) as [b| |]; try discriminate.
  cbn [rbind]. destruct (json_loads b) as [j| |]; try discriminate.
  cbn [rbind]. destruct (getitem j "has_next") as [h| |]; try discriminate.
  cbn [rbind]. destruct (getitem j "cursor") as [cu| |]; try discriminate.
  cbn [rbind]. destruct (json_normalize j field) as [f| |] eqn:Hf; try discriminate.
  cbn [rbind]. intros [= <-]. cbn [page_df].
  unfold json_normalize in Hf. destruct j; try discriminate.
  destruct (pull_records d field) as [recs| |]; try discriminate.
  cbn [rbind] in Hf. destruct (forallb _ recs); try discriminate.
  injection Hf as <-. apply DataFrame_records_shaped.
Qed.

(** Rows of one length make a table that wide and need no filling. *)
Lemma rows_of_one_length n (rows : list (list cell)) :
  Forall (fun row => List.length row = n) rows ->
  (rows = [] -> n = O) ->
  width rows = n /\ DataFrame_rows rows = rows.
Proof.
  intros Hall Hnil.
  assert (Hw : width rows = n).
  { destruct rows as [|row rows]; [symmetry; now apply Hnil|].
    clear Hnil. revert row Hall. induction rows as [|row' rows IH]; intros row Hall.
    - inversion Hall; subst. simpl. lia.
    - inversion Hall as [|? ? H1 H2]; subst.
      specialize (IH row' H2). simpl in *. lia. }
  split; [exact Hw|].
  unfold DataFrame_rows. rewrite Hw. clear Hw Hnil.
  induction Hall as [|row rows Hrow Hall IH]; [reflexivity|].
  cbn [map]. unfold cell in *. rewrite IH, Hrow, Nat.sub_diag. cbn [repeat]. now rewrite app_nil_r.
Qed.

(** The URLs requested in a run of pages: the first with the cursor of the
    locals, each next one with the cursor of the page before. *)
Lemma turns_urls api_key secret_key url_path limit ps : forall p l w,
  map req_url (sent (snd (turns api_key secret_key url_path limit l w (ps ++ [p]))))
  = map req_url (sent w)
    ++ map (cb_url url_path limit)
         (cursor_text (cursor l) :: map (fun q => cursor_text (page_cursor q)) ps).
Proof.
  induction ps as [|q ps IH]; intros p l w.
  - simpl. now rewrite map_app.
  - cbn [app turns]. rewrite IH. cbn [turn fst snd say send sent extend cursor map].
    rewrite map_app, <- app_assoc. reflexivity.
Qed.

(** C1: what the code does when the last page has no records.  Both pages
    are read without error, the first goes on and the second does not, and
    the call raises [ValueError] instead of returning the records [A; B]:
    the table of the rows of all pages is given the column names of the
    last page, of which there are none. *)
Theorem empty_last_page_raises_length_mismatch :
  option_map fst
    (cb_get_all_accounts 2 Demo.env
       (Demo.world [Demo.ok (Demo.first_json "c1"); Demo.ok Demo.empty_json]))
  = Some (Raise (mk_exn ValueError
            "Length mismatch: Expected axis has 3 elements, new values have 0 elements"))
  /\ read_page "accounts" (Some (Demo.response (Demo.first_json "c1")))
     = Return (Demo.first_page "c1")
  /\ read_page "accounts" (Some (Demo.response Demo.empty_json)) = Return Demo.empty_page
  /\ Demo.empty_page = mk_page (JBool false) (JStr "") (mk_frame [] []).
Proof. repeat split; vm_compute; reflexivity. Qed.

(** X1. The round trip of the pagination.  When the server answers with good
    pages of which all but the last go on, and every page with records has
    as many columns as the last, the call returns the rows of the pages
    in page order, each page's rows in their order, under the columns of
    the last page; the first request carries no cursor and each next one
    the cursor of the page before. *)
Theorem pagination_round_trip :
  forall api_key secret_key url_path limit field rs ps r_last p_last w fuel,
    reads api_key secret_key url_path limit field start w rs ps ->
    Forall goes_on ps ->
    answer api_key secret_key url_path limit
      (fst (turns api_key secret_key url_path limit start w ps))
      (snd (turns api_key secret_key url_path limit start w ps)) = Responds r_last ->
    good field r_last p_last ->
    truthy (page_has_next p_last) = false ->
    Forall (fun p => values (page_df p) = []
                     \/ List.length (columns (page_df p))
                        = List.length (columns (page_df p_last))) ps ->
    (List.length ps < fuel)%nat ->
    let w' := snd (turns api_key secret_key url_path limit start w (ps ++ [p_last])) in
    cb_get_all fuel (mk_env api_key (Some secret_key)) url_path limit field w
    = Some (Return (mk_frame (columns (page_df p_last))
                      (List.concat (map (fun p => values (page_df p)) (ps ++ [p_last])))),
            w')
    /\ map req_url (sent w')
       = map req_url (sent w)
         ++ map (cb_url url_path limit)
              ("" :: map (fun p => cursor_text (page_cursor p)) ps).
Proof.
  intros api_key secret_key url_path limit field rs ps r_last p_last w fuel
         Hreads Hgo Ha Hlast Hstop Hcols Hfuel w'.
  subst w'. split; [|apply (turns_urls api_key secret_key url_path limit ps p_last start w)].
  destruct (run_turns api_key secret_key url_path limit field rs ps w Hreads Hgo)
    as (Hrun & Hc & Ht).
  replace fuel with (List.length ps + S (fuel - S (List.length ps)))%nat by lia.
  rewrite Hrun, while_step by exact Ht.
  rewrite (loop_body_good api_key secret_key url_path limit field _ _ r_last p_last Hc
             Ha Hlast).
  rewrite turns_app. cbn [turns].
  set (l := fst (turns api_key secret_key url_path limit start w ps)).
  set (w1 := snd (turns api_key secret_key url_path limit start w ps)).
  rewrite while_stops by exact Hstop.
  cbn [finish]. f_equal. f_equal.
  unfold build_frame. cbn [turn fst extend tmp_df lst].
  assert (Hlst : lst l ++ values (page_df p_last)
                 = List.concat (map (fun p => values (page_df p)) (ps ++ [p_last]))).
  { subst l. rewrite turns_lst. cbn [start lst app].
    rewrite map_app, concat_app. cbn [map List.concat]. now rewrite app_nil_r. }
  rewrite Hlst.
  destruct (read_page_shaped field _ _ (proj2 Hlast)) as [Hrows Hnil].
  destruct (rows_of_one_length (List.length (columns (page_df p_last)))
              (List.concat (map (fun p => values (page_df p)) (ps ++ [p_last]))))
    as [Hw Hrows'].
  - apply Forall_concat. apply Forall_map. apply Forall_app. split.
    + clear Hrun Hc Ht Hlst Hfuel Ha Hgo. subst l w1.
      generalize dependent w. generalize start. revert rs.
      induction ps as [|p ps IH]; intros rs l0 w Hreads; [constructor|].
      destruct rs as [|r rs]; [destruct Hreads|].
      destruct Hreads as (_ & [_ Hp] & Hreads).
      inversion Hcols as [|? ? Hp_cols Hcols']; subst.
      constructor; [|eapply IH; eauto].
      destruct (read_page_shaped field _ _ Hp) as [Hr _].
      destruct Hp_cols as [He|He]; [rewrite He; constructor | now rewrite <- He].
    + constructor; [exact Hrows | constructor].
  - intros Hempty. rewrite map_app, concat_app in Hempty.
    apply app_eq_nil in Hempty. destruct Hempty as [_ He]. cbn [map List.concat] in He.
    rewrite app_nil_r in He. now rewrite (Hnil He).
  - rewrite Hw, Hrows'. unfold set_columns. now rewrite Nat.eqb_refl.
Qed.

Lemma pagination_round_trip_witness :
  cb_get_all 2 Demo.env Demo.accounts_path 50 "accounts"
    (Demo.world [Demo.ok (Demo.first_json "c1"); Demo.ok Demo.last_json])
  = Some (Return (mk_frame (columns (page_df Demo.last_page))
                    (List.concat (map (fun p => values (page_df p))
                                    ([Demo.first_page "c1"] ++ [Demo.last_page])))),
          snd (turns (Some "key") "secret" Demo.accounts_path 50 start
                 (Demo.world [Demo.ok (Demo.first_json "c1"); Demo.ok Demo.last_json])
                 ([Demo.first_page "c1"] ++ [Demo.last_page])))
  /\ map req_url
       (sent (snd (turns (Some "key") "secret" Demo.accounts_path 50 start
                     (Demo.world [Demo.ok (Demo.first_json "c1"); Demo.ok Demo.last_json])
                     ([Demo.first_page "c1"] ++ [Demo.last_page]))))
     = map req_url
         (sent (Demo.world [Demo.ok (Demo.first_json "c1"); Demo.ok Demo.last_json]))
       ++ map (cb_url Demo.accounts_path 50)
            ("" :: map (fun p => cursor_text (page_cursor p)) [Demo.first_page "c1"]).
Proof.
  refine (pagination_round_trip (Some "key") "secret" Demo.accounts_path 50 "accounts"
            [Demo.response (Demo.first_json "c1")] [Demo.first_page "c1"]
            (Demo.response Demo.last_json) Demo.last_page
            (Demo.world [Demo.ok (Demo.first_json "c1"); Demo.ok Demo.last_json]) 2
            _ _ _ _ _ _ _).
  - apply demo_first_page_read.
  - constructor; [apply demo_first_page_good | constructor].
  - reflexivity.
  - apply demo_last_page_good.
  - reflexivity.
  - constructor; [right; reflexivity | constructor].
  - unfold lt. simpl. apply le_n.
Defined.

(** * Further properties of the client *)

(** ** One call of [cb_connect] *)


(** ** Runs that read their last page *)

(** The pagination when the page after a run of good pages that go on is
    good and does not go on: the loop ends and the table is built. *)
Lemma run_to_end api_key secret_key url_path limit field rs ps r_last p_last w fuel :
  reads api_key secret_key url_path limit field start w rs ps ->
  Forall goes_on ps ->
  answer api_key secret_key url_path limit
    (fst (turns api_key secret_key url_path limit start w ps))
    (snd (turns api_key secret_key url_path limit start w ps)) = Responds r_last ->
  good field r_last p_last ->
  truthy (page_has_next p_last) = false ->
  (List.length ps < fuel)%nat ->
  cb_get_all fuel (mk_env api_key (Some secret_key)) url_path limit field w
  = Some (build_frame (fst (turns api_key secret_key url_path limit start w
                              (ps ++ [p_last]))),
          snd (turns api_key secret_key url_path limit start w (ps ++ [p_last]))).
Proof.
  intros Hreads Hgo Ha Hlast Hstop Hfuel.
  destruct (run_turns api_key secret_key url_path limit field rs ps w Hreads Hgo)
    as (Hrun & Hc & Ht).
  replace fuel with (List.length ps + S (fuel - S (List.length ps)))%nat by lia.
  rewrite Hrun, while_step by exact Ht.
  rewrite (loop_body_good api_key secret_key url_path limit field _ _ r_last p_last Hc
             Ha Hlast).
  rewrite turns_app. cbn [turns].
  rewrite while_stops by exact Hstop. reflexivity.
Qed.


(** ** The requests of the pagination *)






(** ** A cursor that is no string *)

(** X4. The loop does not check the type of the cursor.  When, after any
    run of good pages, a good page reports [has_next] with a cursor that is
    no string ([null], a number), the next turn reads the clock and raises
    [TypeError] where the URL is put together: the call ends with that
    exception, no further request is sent and nothing more is printed. *)
Theorem cursor_that_is_no_string_raises_type_error :
  forall api_key secret_key url_path limit field rs ps r p w fuel,
    reads api_key secret_key url_path limit field start w rs ps ->
    Forall goes_on ps ->
    answer api_key secret_key url_path limit
      (fst (turns api_key secret_key url_path limit start w ps))
      (snd (turns api_key secret_key url_path limit start w ps)) = Responds r ->
    good field r p ->
    truthy (page_has_next p) = true ->
    (forall c, page_cursor p <> JStr c) ->
    (S (List.length ps) < fuel)%nat ->
    let w1 := snd (turns api_key secret_key url_path limit start w (ps ++ [p])) in
    exists e,
      exn_class e = TypeError
      /\ cb_get_all fuel (mk_env api_key (Some secret_key)) url_path limit field w
         = Some (Raise e, tick w1)
      /\ sent (tick w1) = sent w1 /\ stdout (tick w1) = stdout w1
      /\ List.length (sent w1) = (List.length (sent w) + S (List.length ps))%nat.
Proof.
  intros api_key secret_key url_path limit field rs ps r p w fuel
         Hreads Hgo Ha Hgood Hnext Hcur Hfuel w1. subst w1.
  exists (mk_exn TypeError "can only concatenate str to str").
  split; [reflexivity|]. split; [|split; [reflexivity|split; [reflexivity|]]].
  - destruct (run_turns api_key secret_key url_path limit field rs ps w Hreads Hgo)
      as (Hrun & Hc & Ht).
    replace fuel with (List.length ps + S (S (fuel - S (S (List.length ps)))))%nat by lia.
    rewrite Hrun, while_step by exact Ht.
    rewrite (loop_body_good api_key secret_key url_path limit field _ _ r p Hc Ha Hgood).
    rewrite turns_app. cbn [turns].
    rewrite while_step by exact Hnext.
    unfold loop_body at 1, bind at 1.
    rewrite cb_connect_cursor_not_str by exact Hcur. reflexivity.
  - destruct (turns_world api_key secret_key url_path limit (ps ++ [p]) start w)
      as (_ & _ & _ & H).
    rewrite H, length_app. cbn [List.length]. lia.
Qed.

Lemma cursor_that_is_no_string_raises_type_error_witness :
  exists e,
    exn_class e = TypeError
    /\ cb_get_all 2 Demo.env Demo.accounts_path 50 "accounts"
         (Demo.world
            [Demo.ok (JObj [("accounts", JArr [Demo.A; Demo.B]);
                            ("has_next", JBool true); ("cursor", JNull)])])
       = Some (Raise e,
               tick (snd (turns (Some "key") "secret" Demo.accounts_path 50 start
                            (Demo.world
                               [Demo.ok (JObj [("accounts", JArr [Demo.A; Demo.B]);
                                               ("has_next", JBool true);
                                               ("cursor", JNull)])])
                            ([] ++ [mk_page (JBool true) JNull
                                      (Demo.table [Demo.A; Demo.B])])))).
Proof.
  destruct (cursor_that_is_no_string_raises_type_error
              (Some "key") "secret" Demo.accounts_path 50 "accounts" [] []
              (Demo.response (JObj [("accounts", JArr [Demo.A; Demo.B]);
                                    ("has_next", JBool true); ("cursor", JNull)]))
              (mk_page (JBool true) JNull (Demo.table [Demo.A; Demo.B]))
              (Demo.world
                 [Demo.ok (JObj [("accounts", JArr [Demo.A; Demo.B]);
                                 ("has_next", JBool true); ("cursor", JNull)])])
              2%nat I (Forall_nil _) eq_refl (conj eq_refl eq_refl) eq_refl
              (fun c H => eq_ind JNull (fun v => match v with JNull => True | _ => False end)
                            I _ H)
              (le_n 2)) as (e & Hc & Hrun & _).
  exists e. split; [exact Hc | exact Hrun].
Defined.

(** ** The columns of the table *)

Lemma width_app (a b : list (list cell)) : width (a ++ b) = Nat.max (width a) (width b).
Proof.
  unfold width. induction a as [|row a IH]; [reflexivity|].
  cbn [app fold_right]. rewrite IH. apply Nat.max_assoc.
Qed.

Lemma width_shaped (f : Frame) : shaped f -> width (values f) = List.length (columns f).
Proof.
  intros [Hrows Hnil].
  apply (rows_of_one_length (List.length (columns f)) (values f) Hrows).
  intros H. now rewrite (Hnil H).
Qed.

Lemma width_pages (ps : list Page) :
  Forall (fun p => shaped (page_df p)) ps ->
  width (List.concat (map (fun p => values (page_df p)) ps))
  = list_max (map (fun p => List.length (columns (page_df p))) ps).
Proof.
  induction 1 as [|p ps Hp Hps IH]; [reflexivity|].
  cbn [map List.concat list_max fold_right].
  rewrite width_app, IH, (width_shaped _ Hp). reflexivity.
Qed.

Lemma reads_shaped api_key secret_key url_path limit field ps : forall rs l w,
  reads api_key secret_key url_path limit field l w rs ps ->
  Forall (fun p => shaped (page_df p)) ps.
Proof.
  induction ps as [|p ps IH]; intros rs l w H; [constructor|].
  destruct rs as [|r rs]; [destruct H|].
  destruct H as (_ & [_ Hp] & H).
  constructor; [exact (read_page_shaped _ _ _ Hp) | exact (IH _ _ _ H)].
Qed.

(** The table a run builds of the pages it has read. *)
Lemma build_frame_turns api_key secret_key url_path limit ps p w :
  build_frame (fst (turns api_key secret_key url_path limit start w (ps ++ [p])))
  = set_columns
      (DataFrame_rows (List.concat (map (fun q => values (page_df q)) (ps ++ [p]))))
      (width (List.concat (map (fun q => values (page_df q)) (ps ++ [p]))))
      (columns (page_df p)).
Proof.
  unfold build_frame.
  destruct (turns_tmp_df api_key secret_key url_path limit ps p start w) as (-> & _).
  rewrite turns_lst. reflexivity.
Qed.

(** X5. The table of all rows is as wide as the widest page, and it is
    given the column names of the last page.  When the pages are good and
    some page before the last has more columns than the last, the call
    fetches every page and then raises [ValueError] instead of returning
    the records. *)
Theorem page_wider_than_the_last_raises_value_error :
  forall api_key secret_key url_path limit field rs ps r_last p_last w fuel,
    reads api_key secret_key url_path limit field start w rs ps ->
    Forall goes_on ps ->
    answer api_key secret_key url_path limit
      (fst (turns api_key secret_key url_path limit start w ps))
      (snd (turns api_key secret_key url_path limit start w ps)) = Responds r_last ->
    good field r_last p_last ->
    truthy (page_has_next p_last) = false ->
    Exists (fun p => List.length (columns (page_df p_last))
                     < List.length (columns (page_df p)))%nat ps ->
    (List.length ps < fuel)%nat ->
    exists e,
      exn_class e = ValueError
      /\ cb_get_all fuel (mk_env api_key (Some secret_key)) url_path limit field w
         = Some (Raise e,
                 snd (turns api_key secret_key url_path limit start w (ps ++ [p_last]))).
Proof.
  intros api_key secret_key url_path limit field rs ps r_last p_last w fuel
         Hreads Hgo Ha Hlast Hstop Hwide Hfuel.
  rewrite (run_to_end _ _ _ _ _ rs ps r_last p_last w fuel Hreads Hgo Ha Hlast Hstop Hfuel).
  rewrite build_frame_turns, width_pages.
  2:{ apply Forall_app. split; [exact (reads_shaped _ _ _ _ _ _ _ _ _ Hreads)|].
      constructor; [|constructor]. destruct Hlast as [_ Hp].
      exact (read_page_shaped _ _ _ Hp). }
  unfold set_columns.
  destruct (Nat.eqb _ _) eqn:He.
  - exfalso. apply Nat.eqb_eq in He.
    apply Exists_exists in Hwide. destruct Hwide as (p & Hin & Hlt).
    assert (Hle : (list_max (map (fun q => List.length (columns (page_df q)))
                               (ps ++ [p_last]))
                   <= List.length (columns (page_df p_last)))%nat) by lia.
    rewrite list_max_le, Forall_forall in Hle.
    specialize (Hle (List.length (columns (page_df p)))).
    assert (Hm : In (List.length (columns (page_df p)))
                   (map (fun q => List.length (columns (page_df q))) (ps ++ [p_last]))).
    { apply in_map_iff. exists p. split; [reflexivity|]. apply in_or_app. now left. }
    specialize (Hle Hm). lia.
  - eexists. split; [|reflexivity]. reflexivity.
Qed.

Lemma page_wider_than_the_last_raises_value_error_witness :
  exists e,
    exn_class e = ValueError
    /\ option_map fst
         (cb_get_all 2 Demo.env Demo.accounts_path 50 "accounts"
            (Demo.world
               [Demo.ok (Demo.first_json "c1");
                Demo.ok (Demo.page "accounts" (JArr [JObj [("uuid", JStr "C")]]) false "")]))
       = Some (Raise e).
Proof.
  assert (Hwide : Exists (fun p => List.length (columns (page_df
                     (mk_page (JBool false) (JStr "")
                        (Demo.table [JObj [("uuid", JStr "C")]]))))
                                   < List.length (columns (page_df p)))%nat
                    [Demo.first_page "c1"]).
  { constructor. simpl. lia. }
  destruct (page_wider_than_the_last_raises_value_error
              (Some "key") "secret" Demo.accounts_path 50 "accounts"
              [Demo.response (Demo.first_json "c1")] [Demo.first_page "c1"]
              (Demo.response
                 (Demo.page "accounts" (JArr [JObj [("uuid", JStr "C")]]) false ""))
              (mk_page (JBool false) (JStr "") (Demo.table [JObj [("uuid", JStr "C")]]))
              (Demo.world
                 [Demo.ok (Demo.first_json "c1");
                  Demo.ok (Demo.page "accounts" (JArr [JObj [("uuid", JStr "C")]]) false "")])
              2%nat (demo_first_page_read "c1" _)
              (Forall_cons _ (proj2 (demo_first_page_good "c1")) (Forall_nil _))
              eq_refl (conj eq_refl eq_refl) eq_refl Hwide
              (le_n 2)) as (e & Hc & Hrun).
  exists e. split; [exact Hc|]. unfold Demo.env. rewrite Hrun. reflexivity.
Defined.

(** X6. When the pages are good and no page has more columns than the
    last, the call returns a table under the column names of the last
    page: the rows of every page in page order, those of a page with fewer
    columns filled up on the right with empty cells.  Cells are named by
    their position in the row, not by the column names of their own
    page. *)
Theorem narrower_pages_are_filled_up_to_the_last :
  forall api_key secret_key url_path limit field rs ps r_last p_last w fuel,
    reads api_key secret_key url_path limit field start w rs ps ->
    Forall goes_on ps ->
    answer api_key secret_key url_path limit
      (fst (turns api_key secret_key url_path limit start w ps))
      (snd (turns api_key secret_key url_path limit start w ps)) = Responds r_last ->
    good field r_last p_last ->
    truthy (page_has_next p_last) = false ->
    Forall (fun p => List.length (columns (page_df p))
                     <= List.length (columns (page_df p_last)))%nat ps ->
    (List.length ps < fuel)%nat ->
    let n := List.length (columns (page_df p_last)) in
    let fill (p : Page) :=
      map (fun row => row ++ repeat None (n - List.length (columns (page_df p))))
        (values (page_df p)) in
    option_map fst
      (cb_get_all fuel (mk_env api_key (Some secret_key)) url_path limit field w)
    = Some (Return (mk_frame (columns (page_df p_last))
                      (List.concat (map fill (ps ++ [p_last])))))
    /\ Forall (fun row => List.length row = n) (List.concat (map fill (ps ++ [p_last]))).
Proof.
  intros api_key secret_key url_path limit field rs ps r_last p_last w fuel
         Hreads Hgo Ha Hlast Hstop Hnarrow Hfuel n fill.
  assert (Hshaped : Forall (fun p => shaped (page_df p)) (ps ++ [p_last])).
  { apply Forall_app. split; [exact (reads_shaped _ _ _ _ _ _ _ _ _ Hreads)|].
    constructor; [|constructor]. destruct Hlast as [_ Hp].
    exact (read_page_shaped _ _ _ Hp). }
  assert (Hle : Forall (fun p => List.length (columns (page_df p)) <= n)%nat
                  (ps ++ [p_last])).
  { apply Forall_app. split; [exact Hnarrow|]. constructor; [apply le_n | constructor]. }
  split.
  - rewrite (run_to_end _ _ _ _ _ rs ps r_last p_last w fuel Hreads Hgo Ha Hlast Hstop
               Hfuel).
    cbn [option_map fst]. rewrite build_frame_turns, width_pages by exact Hshaped.
    assert (Hmax : list_max (map (fun q => List.length (columns (page_df q)))
                           (ps ++ [p_last])) = n).
    { apply Nat.le_antisymm.
      - apply list_max_le, Forall_map. exact Hle.
      - rewrite map_app, list_max_app. cbn [map list_max fold_right]. subst n. lia. }
    rewrite Hmax. unfold set_columns. fold n. rewrite Nat.eqb_refl.
    do 3 f_equal. unfold DataFrame_rows.
    rewrite width_pages, Hmax by exact Hshaped.
    rewrite concat_map, map_map. f_equal.
    apply map_ext_in. intros p Hin. subst fill. cbv beta.
    rewrite Forall_forall in Hshaped. destruct (Hshaped p Hin) as [Hrows _].
    rewrite Forall_forall in Hrows.
    apply map_ext_in. intros row Hrow. unfold cell in *. now rewrite (Hrows row Hrow).
  - apply Forall_concat, Forall_map, Forall_forall. intros p Hin.
    rewrite Forall_forall in Hshaped, Hle.
    destruct (Hshaped p Hin) as [Hrows _]. specialize (Hle p Hin).
    subst fill. cbv beta. apply Forall_map. revert Hrows. apply Forall_impl.
    intros row Hrow. rewrite length_app, repeat_length. unfold cell in *. lia.
Qed.

Lemma narrower_pages_are_filled_up_to_the_last_witness :
  option_map fst
    (cb_get_all 2 Demo.env Demo.accounts_path 50 "accounts"
       (Demo.world
          [Demo.ok (Demo.page "accounts" (JArr [JObj [("name", JStr "N")]]) true "c1");
           Demo.ok Demo.last_json]))
  = Some (Return (mk_frame ["uuid"; "available_balance.value"; "available_balance.currency"]
                    [[Some (JStr "N"); None; None];
                     [Some (JStr "C"); Some (JStr "3"); Some (JStr "EUR")]])).
Proof.
  refine (proj1 (narrower_pages_are_filled_up_to_the_last
                   (Some "key") "secret" Demo.accounts_path 50 "accounts"
                   [Demo.response
                      (Demo.page "accounts" (JArr [JObj [("name", JStr "N")]]) true "c1")]
                   [mk_page (JBool true) (JStr "c1")
                      (Demo.table [JObj [("name", JStr "N")]])]
                   (Demo.response Demo.last_json) Demo.last_page
                   (Demo.world
                      [Demo.ok (Demo.page "accounts" (JArr [JObj [("name", JStr "N")]])
                                  true "c1");
                       Demo.ok Demo.last_json])
                   2%nat _ _ _ _ _ _ _)).
  - split; [reflexivity|]. split; [split; reflexivity | exact I].
  - constructor; [|constructor]. split; [reflexivity | exists "c1"; reflexivity].
  - reflexivity.
  - apply demo_last_page_good.
  - reflexivity.
  - constructor; [simpl; lia | constructor].
  - unfold lt. simpl. apply le_n.
Defined.

(** ** What a run prints *)

Lemma turns_stdout api_key secret_key url_path limit ps : forall p l w,
  stdout (snd (turns api_key secret_key url_path limit l w (ps ++ [p])))
  = stdout w
    ++ map (fun c => success_line (cb_url url_path limit c))
         (cursor_text (cursor l) :: map (fun q => cursor_text (page_cursor q)) ps).
Proof.
  induction ps as [|q ps IH]; intros p l w.
  - reflexivity.
  - cbn [app turns]. rewrite IH. cbn [turn fst snd say send stdout extend cursor map].
    rewrite <- app_assoc. reflexivity.
Qed.

(** X7. A run of good pages prints one line for each page and nothing
    else: the success line with the URL of the request, in the order of
    the requests, whether the table can be built in the end or not; and it
    reads the clock once for each page. *)
Theorem good_run_prints_one_success_line_per_page :
  forall api_key secret_key url_path limit field rs ps r_last p_last w fuel,
    reads api_key secret_key url_path limit field start w rs ps ->
    Forall goes_on ps ->
    answer api_key secret_key url_path limit
      (fst (turns api_key secret_key url_path limit start w ps))
      (snd (turns api_key secret_key url_path limit start w ps)) = Responds r_last ->
    good field r_last p_last ->
    truthy (page_has_next p_last) = false ->
    (List.length ps < fuel)%nat ->
    exists res w',
      cb_get_all fuel (mk_env api_key (Some secret_key)) url_path limit field w
      = Some (res, w')
      /\ stdout w'
         = stdout w
           ++ map (fun c => success_line (cb_url url_path limit c))
                ("" :: map (fun p => cursor_text (page_cursor p)) ps)
      /\ ticks w' = (ticks w + S (List.length ps))%nat.
Proof.
  intros api_key secret_key url_path limit field rs ps r_last p_last w fuel
         Hreads Hgo Ha Hlast Hstop Hfuel.
  eexists. eexists. split; [|split].
  - exact (run_to_end _ _ _ _ _ rs ps r_last p_last w fuel Hreads Hgo Ha Hlast Hstop
             Hfuel).
  - apply (turns_stdout api_key secret_key url_path limit ps p_last start w).
  - destruct (turns_world api_key secret_key url_path limit (ps ++ [p_last]) start w)
      as (_ & _ & H & _).
    rewrite H, length_app. cbn [List.length]. lia.
Qed.

Lemma good_run_prints_one_success_line_per_page_witness :
  exists res w',
    cb_get_all 2 Demo.env Demo.accounts_path 50 "accounts"
      (Demo.world [Demo.ok (Demo.first_json "c1"); Demo.ok Demo.last_json])
    = Some (res, w')
    /\ stdout w'
       = ["HTTP connection https://coinbase.com/api/v3/brokerage/accounts?limit=50 successful!";
          "HTTP connection https://coinbase.com/api/v3/brokerage/accounts?limit=50&cursor=c1 successful!"].
Proof.
  destruct (good_run_prints_one_success_line_per_page
              (Some "key") "secret" Demo.accounts_path 50 "accounts"
              [Demo.response (Demo.first_json "c1")] [Demo.first_page "c1"]
              (Demo.response Demo.last_json) Demo.last_page
              (Demo.world [Demo.ok (Demo.first_json "c1"); Demo.ok Demo.last_json])
              2%nat (demo_first_page_read "c1" _)
              (Forall_cons _ (proj2 (demo_first_page_good "c1")) (Forall_nil _))
              eq_refl demo_last_page_good eq_refl (le_n 2)) as (res & w' & Hrun & Hout & _).
  exists res, w'. split; [exact Hrun | exact Hout].
Defined.

(** ** Without a secret *)



(** ** The URL *)

Lemma length_append (a b : string) :
  String.length (a +++ b) = (String.length a + String.length b)%nat.
Proof. induction a as [|x a IH]; simpl; [reflexivity | now rewrite IH]. Qed.

Lemma cb_url_inj url_path limit c c' :
  cb_url url_path limit c = cb_url url_path limit c' -> c = c'.
Proof.
  unfold cb_url.
  set (url := (url_prefix +++ url_path) +++ "?limit=" +++ str_of_int limit).
  destruct (String.eqb_spec c "") as [->|Hc]; destruct (String.eqb_spec c' "") as [->|Hc'];
    intros H; try reflexivity.
  - apply (f_equal String.length) in H. rewrite !length_append in H. simpl in H. lia.
  - apply (f_equal String.length) in H. rewrite !length_append in H. simpl in H. lia.
  - rewrite !append_assoc in H. apply append_inv_head in H.
    now apply (append_inv_head "&cursor=") in H.
Qed.

(** X9. The cursor can be read back from the URL of the request: two calls
    of [cb_connect] for one path and one limit with different cursors each
    send one request, and these have different URLs, whatever the clock
    and the server; only the empty cursor gives the URL of the first
    page. *)
Theorem requests_with_different_cursors_have_different_urls :
  forall api_key secret_key url_path limit c c' w w',
    c <> c' ->
    exists u u',
      map req_url
        (issued (cb_connect (mk_env api_key (Some secret_key)) url_path limit (JStr c)) w)
      = [u]
      /\ map req_url
           (issued (cb_connect (mk_env api_key (Some secret_key)) url_path limit (JStr c'))
              w')
         = [u']
      /\ u <> u'
      /\ (u = (url_prefix +++ url_path) +++ "?limit=" +++ str_of_int limit <-> c = "").
Proof.
  intros api_key secret_key url_path limit c c' w w' Hne.
  rewrite !cb_connect_issued. cbn [map req_url cb_request].
  eexists. eexists. split; [reflexivity|]. split; [reflexivity|].
  split.
  - intros H. apply Hne. exact (cb_url_inj _ _ _ _ H).
  - split.
    + intros H. apply (cb_url_inj url_path limit c ""). exact H.
    + intros ->. reflexivity.
Qed.

Lemma requests_with_different_cursors_have_different_urls_witness :
  exists u u',
    map req_url (issued (cb_connect Demo.env Demo.accounts_path 50 (JStr "")) (Demo.world []))
    = [u]
    /\ map req_url
         (issued (cb_connect Demo.env Demo.accounts_path 50 (JStr "c1")) (Demo.world []))
       = [u']
    /\ u <> u'.
Proof.
  destruct (requests_with_different_cursors_have_different_urls
              (Some "key") "secret" Demo.accounts_path 50 "" "c1"
              (Demo.world []) (Demo.world []))
    as (u & u' & H1 & H2 & H3 & _).
  - discriminate.
  - exists u, u'. split; [exact H1|]. split; [exact H2 | exact H3].
Defined.

(** ** The shape of the signature *)










